(** * microfaas.buildah: the config snapshot/diff/commit engine

    A shallow embedding of [src/microfaas/buildah.py].

    - Python [str] is [string]; a character stands for a code point
      below 256.
    - [dict] of [str] to [str] is [gmap string string], [set] of [str] is
      [gset string].  Python does not fix the order in which a set is
      iterated: the order is the parameter [set_iter] of the development,
      about which only "it enumerates the set" is assumed.
    - Exceptions are values of [exn]; code that can raise returns a
      [result].
    - The [buildah] process is an oracle from the commands run so far and
      the command line to an exit code and the captured output; code that
      runs it threads the log of command lines ([io]). *)

From Stdlib Require Import ZArith String Ascii List.
From stdpp Require Import gmap strings list fin_maps fin_sets.

Set Warnings "-clear-no-such-hyp,-register-all".

(** ** Exceptions and results *)

Inductive exn : Type :=
| KeyError (key : string)
| AssertionError
| ValueError (msg : string)
| TypeError (msg : string)
| AttributeError (msg : string)
| CalledProcessError (returncode : Z) (cmd : list string) (output : option string)
| ImageNotFoundError (msg : string) (cause : exn)
| CancelledError
| RuntimeError (msg : string).

Inductive result (A : Type) : Type :=
| Ok (a : A)
| Raise (e : exn).
Arguments Ok {A} a.
Arguments Raise {A} e.

#[global] Instance result_ret : MRet result := λ A a, Ok a.
#[global] Instance result_bind : MBind result := λ A B f m,
  match m with Ok a => f a | Raise e => Raise e end.

(** [for x in l: body], the loop state passed along. *)
Fixpoint for_each {A S : Type} (l : list A) (body : A → S → result S) (s : S)
  : result S :=
  match l with
  | [] => Ok s
  | x :: l' => s' ← body x s; for_each l' body s'
  end.

(** [d[k]] on a dict. *)
Definition getitem (d : gmap string string) (k : string) : result string :=
  match d !! k with
  | Some v => Ok v
  | None => Raise (KeyError k)
  end.

Section Buildah.

#[local] Set Default Proof Using "Type*".
#[local] Set Proof Using Clear Unused.

(** The order in which Python iterates a set. *)
Variable set_iter : gset string → list string.
Hypothesis set_iter_perm : ∀ X, set_iter X ≡ₚ elements X.

(** [_dict_diff(old, new)] *)
Definition _dict_diff (old new : gmap string string)
  : result (gset string * gset string) :=
  let oldkeys := dom old in
  let newkeys := dom new in
  let changed := newkeys ∖ oldkeys in
  let deleted := oldkeys ∖ newkeys in
  changed ← for_each (set_iter (newkeys ∩ oldkeys))
    (λ key changed,
       n ← getitem new key;
       o ← getitem old key;
       Ok (if decide (n ≠ o) then {[key]} ∪ changed else changed))
    changed;
  if decide (size (changed ∩ deleted) = 0)
  then Ok (changed, deleted)
  else Raise AssertionError.

(** The keys both dicts hold with the same value. *)
Definition unchanged_keys (A B : gmap string string) : gset string :=
  filter (λ k, A !! k = B !! k) (dom A ∩ dom B).

(** The keys a diff speaks of as added or changed: in the live dict, and
    absent from the snapshot or held there with another value. *)
Definition added_or_changed (A B : gmap string string) : gset string :=
  filter (λ k, A !! k ≠ B !! k) (dom B).


(** ** Strings *)

(** The double quote character. *)
Definition dquote : string := String "034" "".

(** [sep.join(l)] *)
Definition str_join (sep : string) (l : list string) : string :=
  String.concat sep l.

(** [_join_shellwords(seq)]: [" ".join(f"'{s}'" for s in seq)] *)
Definition _join_shellwords (seq : list string) : string :=
  str_join " " (map (λ s, "'" +:+ s +:+ "'") seq).

(** [s.split(sep, 1)] for a separator of one character. *)
Fixpoint str_split1 (sep : ascii) (s : string) : list string :=
  match s with
  | "" => [""]
  | String c s' =>
      if decide (c = sep) then [""; s']
      else match str_split1 sep s' with
           | h :: t => String c h :: t
           | [] => [String c ""]
           end
  end.

(** [c.isspace()] for a code point below 256. *)
Definition isspace (c : ascii) : bool :=
  let n := nat_of_ascii c in
  bool_decide (9 ≤ n ≤ 13 ∨ 28 ≤ n ≤ 32 ∨ n = 133 ∨ n = 160).

Fixpoint lstrip (s : string) : string :=
  match s with
  | String c s' => if isspace c then lstrip s' else s
  | "" => ""
  end.

Fixpoint rstrip (s : string) : string :=
  match s with
  | String c s' =>
      match rstrip s' with
      | "" => if isspace c then "" else String c ""
      | r => String c r
      end
  | "" => ""
  end.

(** [s.strip()] *)
Definition strip (s : string) : string := rstrip (lstrip s).

(** ** [json.dumps] on a list of strings

    The encoder of the Python standard library with its defaults
    ([ensure_ascii=True], separators [", "] and [": "]): in a string,
    the backslash, the double quote and every character outside
    [' '..'~'] are escaped. *)

Definition hex_digit (n : nat) : ascii :=
  default "0"%char (String.get n "0123456789abcdef").

Definition json_escape_char (c : ascii) : string :=
  let n := nat_of_ascii c in
  if decide (n = 34) then "\" +:+ dquote
  else if decide (n = 92) then "\\"
  else if decide (n = 10) then "\n"
  else if decide (n = 13) then "\r"
  else if decide (n = 9) then "\t"
  else if decide (n = 8) then "\b"
  else if decide (n = 12) then "\f"
  else if decide (32 ≤ n ≤ 126) then String c ""
  else "\u00" +:+ String (hex_digit (n / 16)) (String (hex_digit (n mod 16)) "").

Fixpoint json_escape (s : string) : string :=
  match s with
  | "" => ""
  | String c s' => json_escape_char c +:+ json_escape s'
  end.

Definition json_dumps_str (s : string) : string :=
  dquote +:+ json_escape s +:+ dquote.

Definition json_dumps (l : list string) : string :=
  "[" +:+ str_join ", " (map json_dumps_str l) +:+ "]".

(** ** The container object

    [vars(self)] of a [Container]: the attributes the class declares, and
    [_snapshot], absent ([None]) until [_snapshot_config] has run.  A
    snapshot is [copy.deepcopy(vars(self))], a value of the same shape,
    the snapshot before it included. *)

Inductive Container : Type := mkContainer {
  _id : string;
  environ : gmap string string;
  command : list string;
  entrypoint : list string;
  labels : gmap string string;
  volumes : gset string;
  workdir : string;
  _snapshot : option Container
}.

Definition set_snapshot (snap : option Container) (self : Container)
  : Container :=
  mkContainer (_id self) (environ self) (command self) (entrypoint self)
    (labels self) (volumes self) (workdir self) snap.

(** [self._snapshot], an [AttributeError] while the attribute is unset. *)
Definition getattr_snapshot (self : Container) : result Container :=
  match _snapshot self with
  | Some snap => Ok snap
  | None =>
      Raise (AttributeError "'Container' object has no attribute '_snapshot'")
  end.

(** [Container._snapshot_config] *)
Definition _snapshot_config (self : Container) : Container :=
  set_snapshot (Some self) self.

(** [Container._produce_config_args] *)
Definition _produce_config_args (self : Container) : result (list string) :=
  let args := [] in
  (* Simple stuff: command, entrypoint, workdir *)
  snap ← getattr_snapshot self;
  let args :=
    if decide (command self ≠ command snap)
    then args ++ ["--cmd"; _join_shellwords (command self)] else args in
  let args :=
    if decide (entrypoint self ≠ entrypoint snap)
    then args ++ ["--entrypoint"; json_dumps (entrypoint self)] else args in
  let args :=
    if decide (workdir self ≠ workdir snap)
    then args ++ ["--workingdir"; workdir self] else args in
  (* Environment *)
  '(env_add, env_del) ← _dict_diff (environ snap) (environ self);
  args ← for_each (set_iter env_add)
    (λ key args,
       v ← getitem (environ self) key;
       Ok (args ++ ["--env"; key +:+ "=" +:+ v]))
    args;
  args ← for_each (set_iter env_del)
    (λ key args, Ok (args ++ ["--env"; key +:+ "-"]))
    args;
  (* Volumes *)
  let vol_add := volumes self ∖ volumes snap in
  let vol_del := volumes snap ∖ volumes self in
  args ← for_each (set_iter vol_add)
    (λ v args, Ok (args ++ ["--volume"; v]))
    args;
  args ← for_each (set_iter vol_del)
    (λ v args, Ok (args ++ ["--volume"; v +:+ "-"]))
    args;
  Ok args.

(** *** The argument list as the specification words it

    A flag group is a flag and its value; the argument list is the flag
    groups one after the other. *)

Definition ungroup (groups : list (string * string)) : list string :=
  flat_map (λ g, [g.1; g.2]) groups.

(** The flag groups of an argument list, and their flags. *)
Fixpoint flag_groups (args : list string) : list (string * string) :=
  match args with
  | flag :: value :: rest => (flag, value) :: flag_groups rest
  | _ => []
  end.

Definition flags (args : list string) : list string :=
  (flag_groups args).*1.

(** Each token between single quotes, the quoted tokens separated by one
    space. *)
Fixpoint quoted_tokens (tokens : list string) : string :=
  match tokens with
  | [] => ""
  | [t] => "'" +:+ t +:+ "'"
  | t :: rest => "'" +:+ t +:+ "' " +:+ quoted_tokens rest
  end.

(** The flag group of a field compared as a whole: none when the live
    value is the snapshot's. *)
Definition whole_field_group {A : Type} `{EqDecision A} (flag : string)
    (serialize : A → string) (snap live : A) : list (string * string) :=
  if decide (live = snap) then [] else [(flag, serialize live)].

(** One flag group per key, in the order of [keys]. *)
Definition key_groups (flag : string) (serialize : string → string)
    (keys : list string) : list (string * string) :=
  map (λ k, (flag, serialize k)) keys.

(** The flag groups of the update command, in the order the
    specification fixes: command, entrypoint, working directory,
    environment additions, environment deletions, volume additions,
    volume deletions. *)
Definition config_groups (snap live : Container) : list (string * string) :=
  whole_field_group "--cmd" quoted_tokens (command snap) (command live)
  ++ whole_field_group "--entrypoint" json_dumps
       (entrypoint snap) (entrypoint live)
  ++ whole_field_group "--workingdir" id (workdir snap) (workdir live)
  ++ key_groups "--env" (λ k, k +:+ "=" +:+ (environ live !!! k))
       (set_iter (added_or_changed (environ snap) (environ live)))
  ++ key_groups "--env" (λ k, k +:+ "-")
       (set_iter (dom (environ snap) ∖ dom (environ live)))
  ++ key_groups "--volume" id (set_iter (volumes live ∖ volumes snap))
  ++ key_groups "--volume" (λ v, v +:+ "-")
       (set_iter (volumes snap ∖ volumes live)).

(** ** JSON values, as [json.loads] returns them

    An object is the list of its members in the order of the text;
    looking a key up finds its last member, as the [dict] built by
    [json.loads] holds the last value of a repeated key. *)

Inductive json : Type :=
| JNull
| JBool (b : bool)
| JNum (n : Z)
| JStr (s : string)
| JList (items : list json)
| JObj (members : list (string * json)).

Fixpoint obj_get (key : string) (members : list (string * json))
  : option json :=
  match members with
  | [] => None
  | (k, v) :: rest =>
      match obj_get key rest with
      | Some v' => Some v'
      | None => if decide (k = key) then Some v else None
      end
  end.

(** [bool(x)] *)
Definition truthy (x : json) : bool :=
  match x with
  | JNull => false
  | JBool b => b
  | JNum n => bool_decide (n ≠ 0%Z)
  | JStr s => bool_decide (s ≠ "")
  | JList l => bool_decide (l ≠ [])
  | JObj o => bool_decide (o ≠ [])
  end.

(** [x or y] *)
Definition py_or (x y : json) : json := if truthy x then x else y.

(** [x[key]] for a string [key]. *)
Definition subscript (x : json) (key : string) : result json :=
  match x with
  | JObj o =>
      match obj_get key o with
      | Some v => Ok v
      | None => Raise (KeyError key)
      end
  | JList _ => Raise (TypeError "list indices must be integers or slices, not str")
  | JStr _ => Raise (TypeError "string indices must be integers")
  | _ => Raise (TypeError "object is not subscriptable")
  end.

(** [x.get(key)] *)
Definition dict_get (x : json) (key : string) : result json :=
  match x with
  | JObj o => Ok (default JNull (obj_get key o))
  | _ => Raise (AttributeError "object has no attribute 'get'")
  end.

(** [x.keys()] *)
Definition dict_keys (x : json) : result (list string) :=
  match x with
  | JObj o => Ok o.*1
  | _ => Raise (AttributeError "object has no attribute 'keys'")
  end.

Fixpoint chars (s : string) : list string :=
  match s with
  | "" => []
  | String c s' => String c "" :: chars s'
  end.

(** The items [for item in x] goes through. *)
Definition iterate (x : json) : result (list json) :=
  match x with
  | JList l => Ok l
  | JObj o => Ok (JStr <$> o.*1)
  | JStr s => Ok (JStr <$> chars s)
  | _ => Raise (TypeError "object is not iterable")
  end.

(** [item.split('=', 1)] *)
Definition split_eq (item : json) : result (list string) :=
  match item with
  | JStr s => Ok (str_split1 "=" s)
  | _ => Raise (AttributeError "object has no attribute 'split'")
  end.

(** [dict(item.split('=', 1) for item in items)]: the items are split and
    entered one after the other; [dict] wants sequences of length two. *)
Definition dict_of_split (items : list json) : result (gmap string string) :=
  for_each items
    (λ item d,
       pair ← split_eq item;
       match pair with
       | [k; v] => Ok (<[k:=v]> d)
       | _ => Raise (ValueError "dictionary update sequence element has the wrong length; 2 is required")
       end)
    ∅.

(** The attributes of a [Container] are declared with their types
    ([command: typing.List[str]] and so on); a JSON value of another
    shape is outside the model and reported as a [TypeError]. *)
Definition as_str (x : json) : result string :=
  match x with
  | JStr s => Ok s
  | _ => Raise (TypeError "not a str")
  end.

Definition as_str_list (x : json) : result (list string) :=
  match x with
  | JList l => for_each l (λ item acc, s ← as_str item; Ok (acc ++ [s])) []
  | _ => Raise (TypeError "not a list of str")
  end.

Definition as_str_dict (x : json) : result (gmap string string) :=
  match x with
  | JObj o =>
      for_each o (λ kv d, s ← as_str kv.2; Ok (<[kv.1:=s]> d)) ∅
  | _ => Raise (TypeError "not a dict of str")
  end.

(** ** Running buildah

    The state of a computation is the object a method works on and the log
    of the command lines run so far, oldest first.  [buildah log cmd] is
    what the process does when run with [cmd] after [log]. *)

Record Proc := mkProc { returncode : Z; stdout : string }.

Definition Log := list (list string).

Variable buildah : Log → list string → Proc.

(** [json.loads], a [ValueError] on a text that is not JSON. *)
Variable json_loads : string → result json.

Definition io (S A : Type) : Type := S * Log → result A * (S * Log).

#[global] Instance io_ret {S} : MRet (io S) := λ A a st, (Ok a, st).
#[global] Instance io_bind {S} : MBind (io S) := λ A B f m st,
  match m st with
  | (Ok a, st') => f a st'
  | (Raise e, st') => (Raise e, st')
  end.

Definition raise {S A} (e : exn) : io S A := λ st, (Raise e, st).
Definition lift {S A} (r : result A) : io S A := λ st, (r, st).
Definition get_self {S} : io S S := λ st, (Ok st.1, st).
Definition put_self {S} (s : S) : io S () := λ st, (Ok (), (s, st.2)).

(** [_buildah_out]: runs the process and returns its output, or
    raises [CalledProcessError] when the exit code is not zero. *)
Definition _buildah_out {S} (cmd : list string) : io S string := λ st,
  let proc := buildah st.2 cmd in
  let st' := (st.1, st.2 ++ [cmd]) in
  if decide (returncode proc ≠ 0%Z)
  then (Raise (CalledProcessError (returncode proc) ("buildah" :: cmd)
                 (Some (stdout proc))), st')
  else (Ok (stdout proc), st').

(** ** Container methods *)

(** The command line [_commit_config] runs for the arguments [args]. *)
Definition config_cmd (args : list string) (self : Container) : list string :=
  "config" :: args ++ [_id self].

(** [Container._commit_config] *)
Definition _commit_config : io Container () :=
  self ← get_self;
  match _snapshot self with
  | None => mret ()
  | Some _ =>
      args ← lift (_produce_config_args self);
      if decide (args ≠ [])
      then
        _ ← _buildah_out ("config" :: args ++ [_id self]);
        self ← get_self;
        put_self (_snapshot_config self)
      else mret ()
  end.

(** [Container.inspect] *)
Definition inspect : io Container json :=
  _ ← _commit_config;
  self ← get_self;
  out ← _buildah_out ["inspect"; "--type"; "container"; _id self];
  lift (json_loads out).

(** [json.loads(x)] on a value: the text must be a [str]. *)
Definition json_loads_value (x : json) : result json :=
  match x with
  | JStr s => json_loads s
  | _ => Raise (TypeError "the JSON object must be str, bytes or bytearray")
  end.

(** The assignments of [_init_config], each changing one attribute. *)
Definition set_environ (v : gmap string string) (self : Container) :=
  mkContainer (_id self) v (command self) (entrypoint self) (labels self)
    (volumes self) (workdir self) (_snapshot self).
Definition set_command (v : list string) (self : Container) :=
  mkContainer (_id self) (environ self) v (entrypoint self) (labels self)
    (volumes self) (workdir self) (_snapshot self).
Definition set_entrypoint (v : list string) (self : Container) :=
  mkContainer (_id self) (environ self) (command self) v (labels self)
    (volumes self) (workdir self) (_snapshot self).
Definition set_labels (v : gmap string string) (self : Container) :=
  mkContainer (_id self) (environ self) (command self) (entrypoint self) v
    (volumes self) (workdir self) (_snapshot self).
Definition set_volumes (v : gset string) (self : Container) :=
  mkContainer (_id self) (environ self) (command self) (entrypoint self)
    (labels self) v (workdir self) (_snapshot self).
Definition set_workdir (v : string) (self : Container) :=
  mkContainer (_id self) (environ self) (command self) (entrypoint self)
    (labels self) (volumes self) v (_snapshot self).

Definition modify_self {S} (f : S → S) : io S () :=
  self ← get_self; put_self (f self).

(** The right-hand sides of the assignments of [_init_config], by
    the attribute assigned. *)
Definition config_environ (config : json) : result (gmap string string) :=
  env ← dict_get config "Env";
  items ← iterate (py_or env (JObj []));
  dict_of_split items.

Definition config_command (config : json) : result (list string) :=
  cmd ← dict_get config "Cmd";
  as_str_list (py_or cmd (JList [])).

Definition config_entrypoint (config : json) : result (list string) :=
  ep ← dict_get config "Entrypoint";
  as_str_list (py_or ep (JList [])).

Definition config_labels (config : json) : result (gmap string string) :=
  lab ← dict_get config "Labels";
  as_str_dict (py_or lab (JObj [])).

Definition config_volumes (config : json) : result (gset string) :=
  vol ← dict_get config "Volumes";
  if truthy vol
  then
    v ← subscript config "Volumes";
    ks ← dict_keys v;
    Ok (list_to_set ks)
  else Ok ∅.

Definition config_workdir (config : json) : result string :=
  wd ← dict_get config "WorkingDir";
  as_str (py_or wd (JStr "")).

(** [Container._init_config] *)
Definition _init_config : io Container () :=
  info ← inspect;
  info_config ← lift (subscript info "Config");
  config ←
    (if truthy info_config
     then
       kinda_config ← lift (json_loads_value info_config);
       lift (subscript kinda_config "config")
     else mret (JObj []));
  v ← lift (config_environ config);
  _ ← modify_self (set_environ v);
  v ← lift (config_command config);
  _ ← modify_self (set_command v);
  v ← lift (config_entrypoint config);
  _ ← modify_self (set_entrypoint v);
  v ← lift (config_labels config);
  _ ← modify_self (set_labels v);
  v ← lift (config_volumes config);
  _ ← modify_self (set_volumes v);
  v ← lift (config_workdir config);
  _ ← modify_self (set_workdir v);
  modify_self _snapshot_config.

(** The object [__ainit__] has made when it calls [_init_config]: [_id]
    is set, the other attributes are not yet (they read as empty
    here), and there is no snapshot. *)
Definition new_container (id : string) : Container :=
  mkContainer id ∅ [] [] ∅ ∅ "" None.

(** *** [Container.mount]

    [mount] is a generator function under
    [contextlib.asynccontextmanager].  A generator function with one
    [yield] that no [try] encloses is the code before the [yield], which
    produces the value yielded, and the code after it.  Resuming the
    generator runs the code after the [yield]; throwing an exception into
    it raises the exception at the [yield], and none of the code after it
    runs. *)

Record Generator (S Y : Type) := mkGenerator {
  before_yield : io S Y;
  after_yield : io S ()
}.
Arguments mkGenerator {S Y} _ _.
Arguments before_yield {S Y} _.
Arguments after_yield {S Y} _.

Inductive resume : Type :=
| Next
| Throw (e : exn).

Definition gen_resume {S Y} (g : Generator S Y) (r : resume) : io S () :=
  match r with
  | Next => after_yield g
  | Throw e => raise e
  end.

(** [async with cm as y: body], for the context manager that
    [asynccontextmanager] makes of the generator [cm]: [__aenter__] runs
    the generator to its [yield]; [__aexit__] resumes it when the body
    has returned, and throws the body's exception into it otherwise (an
    error raised in the body and the [CancelledError] of a cancellation
    alike).  The exception that comes out of the generator is the one
    that leaves the statement. *)
Definition async_with {S Y A} (cm : Generator S Y) (body : Y → io S A)
  : io S A :=
  y ← before_yield cm;
  ((λ st,
      match body y st with
      | (Ok a, st') => (_ ← gen_resume cm Next; mret a) st'
      | (Raise e, st') =>
          match gen_resume cm (Throw e) st' with
          | (Ok _, st'') =>
              (Raise (RuntimeError "generator didn't stop after athrow()"),
               st'')
          | (Raise e', st'') => (Raise e', st'')
          end
      end) : io S A).

(** The object [pathlib.Path(arg)], kept as the call that makes it.
    [pathlib] normalises [arg] ([Path('a//b/')] is [Path('a/b')],
    [Path('')] is [Path('.')]); the normal form is not modelled, and
    nothing here tells two paths apart. *)
Inductive pathlib_Path : Type :=
| Path (arg : string).

(** [Container.mount] *)
Definition mount (self : Container) : Generator Container pathlib_Path :=
  mkGenerator
    (out ← _buildah_out ["mount"; _id self];
     let path := strip out in
     mret (Path path))
    (_ ← _buildah_out ["umount"; _id self]; mret ()).

(** ** Images *)

(** The names of the module: line 5 of the source binds [subprocess] to
    the module [asyncio.subprocess], and line 12 binds
    [CalledProcessError] to the class of the module [subprocess] of the
    standard library. *)

Inductive exn_class : Type :=
| class_CalledProcessError.

Definition isinstance (e : exn) (c : exn_class) : bool :=
  match c, e with
  | class_CalledProcessError, CalledProcessError _ _ _ => true
  | _, _ => false
  end.

Inductive attr : Type :=
| AttrClass (c : exn_class)
| AttrOther.

(** The public attributes of [asyncio.subprocess] (CPython 3.11). *)
Definition asyncio_subprocess : list (string * attr) :=
  (λ name, (name, AttrOther)) <$>
    ["DEVNULL"; "PIPE"; "Process"; "STDOUT"; "SubprocessStreamProtocol";
     "create_subprocess_exec"; "create_subprocess_shell"; "events";
     "logger"; "protocols"; "streams"; "subprocess"; "tasks"].

(** [module.name] *)
Definition module_getattr (module : list (string * attr))
    (modname name : string) : result attr :=
  match list_find (λ entry, entry.1 = name) module with
  | Some (_, entry) => Ok entry.2
  | None =>
      Raise (AttributeError ("module '" +:+ modname
                             +:+ "' has no attribute '" +:+ name +:+ "'"))
  end.

(** [try: body / except cls as exc: handler exc].  The expression [cls]
    is evaluated when an exception reaches the clause, and an exception
    raised while evaluating it takes the place of the first. *)
Definition try_except {S A} (body : io S A) (cls : result attr)
    (handler : exn → io S A) : io S A :=
  λ st,
    match body st with
    | (Ok a, st') => (Ok a, st')
    | (Raise e, st') =>
        match cls with
        | Raise e' => (Raise e', st')
        | Ok (AttrClass c) =>
            if isinstance e c then handler e st' else (Raise e, st')
        | Ok AttrOther =>
            (Raise (TypeError "catching classes that do not inherit from BaseException is not allowed"), st')
        end
    end.

Record Image := mkImage { image_id : string }.

(** [Image._from_id_only] *)
Definition Image_from_id_only (id : string) : Image := mkImage id.

(** What the call of a function evaluates to: a value, or, for an
    [async def] with a [yield] in its body, an async generator that has
    not run; the items are what the body yields when it is driven with
    [async for]. *)
Inductive iterable : Type :=
| AsyncGenerator (items : io () (list json)).

(** [iter(x)], as the [for] of a generator expression calls it when the
    expression is made. *)
Definition py_iter (x : iterable) : result (list json) :=
  match x with
  | AsyncGenerator _ =>
      Raise (TypeError "'async_generator' object is not iterable")
  end.

(** [Image.list(name, all=all)] *)
Definition Image_list (name : option string) (all : bool) : iterable :=
  AsyncGenerator
    (let cmd := ["images"; "--json"] in
     let cmd := if all then cmd ++ ["--all"] else cmd in
     let cmd :=
       match name with
       | Some n => if decide (n ≠ "") then cmd ++ [n] else cmd
       | None => cmd
       end in
     out ← _buildah_out cmd;
     imgs ← lift (json_loads out);
     lift (iterate imgs)).

(** [any(img['id'] == id for img in imgs)] *)
Fixpoint any_id_is (id : string) (imgs : list json) : result bool :=
  match imgs with
  | [] => Ok false
  | img :: rest =>
      v ← subscript img "id";
      match v with
      | JStr s => if decide (s = id) then Ok true else any_id_is id rest
      | _ => any_id_is id rest
      end
  end.

(** [Image._resolve] *)
Definition _resolve (id : string) : io () string :=
  imgs ← lift (py_iter (Image_list None false));
  found ← lift (any_id_is id imgs);
  if (found : bool) then mret id
  else
    out ← try_except
      (_buildah_out ["pull"; "--quiet"; id])
      (module_getattr asyncio_subprocess "asyncio.subprocess"
         "CalledProcessError")
      (λ exc, raise (ImageNotFoundError ("Could not find image " +:+ id) exc));
    mret (strip out).

(** [Image.pull] *)
Definition pull (name : string) : io () Image :=
  out ← try_except
    (_buildah_out ["pull"; name])
    (module_getattr asyncio_subprocess "asyncio.subprocess"
       "CalledProcessError")
    (λ exc, raise (ImageNotFoundError ("Could not find image " +:+ name) exc));
  let id := strip out in
  mret (Image_from_id_only id).

(** *** A configuration payload with known values

    The values a payload is made from: each sub-field is missing, null
    or present; the environment is a list of variables and values, the
    labels a list of names and values, the volumes a list of paths. *)

Inductive field (A : Type) : Type :=
| Missing
| Null
| Present (a : A).
Arguments Missing {A}.
Arguments Null {A}.
Arguments Present {A} a.

Definition field_value {A} (empty : A) (f : field A) : A :=
  match f with
  | Present a => a
  | _ => empty
  end.

Record Payload := mkPayload {
  Env : field (list (string * string));
  Cmd : field (list string);
  Entrypoint : field (list string);
  Labels : field (list (string * string));
  Volumes : field (list string);
  WorkingDir : field string
}.

(** How the external tool writes the values. *)
Definition enc_env (kvs : list (string * string)) : json :=
  JList ((λ kv, JStr (kv.1 +:+ "=" +:+ kv.2)) <$> kvs).
Definition enc_strs (l : list string) : json := JList (JStr <$> l).
Definition enc_labels (kvs : list (string * string)) : json :=
  JObj ((λ kv, (kv.1, JStr kv.2)) <$> kvs).
Definition enc_volumes (paths : list string) : json :=
  JObj ((λ p, (p, JObj [])) <$> paths).

(** The member [key] of the object [config] is the sub-field [f]. *)
Definition holds {A} (config : list (string * json)) (key : string)
    (enc : A → json) (f : field A) : Prop :=
  obj_get key config =
    match f with
    | Missing => None
    | Null => Some JNull
    | Present a => Some (enc a)
    end.

Definition carries (config : list (string * json)) (p : Payload) : Prop :=
  holds config "Env" enc_env (Env p) ∧
  holds config "Cmd" enc_strs (Cmd p) ∧
  holds config "Entrypoint" enc_strs (Entrypoint p) ∧
  holds config "Labels" enc_labels (Labels p) ∧
  holds config "Volumes" enc_volumes (Volumes p) ∧
  holds config "WorkingDir" JStr (WorkingDir p).

(** [dict(kvs)]: a later pair replaces an earlier one of the same key. *)
Definition dict_of_pairs (kvs : list (string * string)) : gmap string string :=
  foldl (λ d kv, <[kv.1:=kv.2]> d) ∅ kvs.

(** [c in s] *)
Fixpoint str_in (c : ascii) (s : string) : bool :=
  match s with
  | "" => false
  | String c' s' => if decide (c' = c) then true else str_in c s'
  end.

(** ** The rest of the container

    The methods below take the values they pass through [str] ([image],
    [user], the members of a mount, [src], [dst]) as the strings [str]
    gives. *)

Definition set_id (v : string) (self : Container) :=
  mkContainer v (environ self) (command self) (entrypoint self)
    (labels self) (volumes self) (workdir self) (_snapshot self).

(** The object [cls.__new__(cls)] makes, no attribute set. *)
Definition blank_container : Container := new_container "".

(** [Container.__ainit__(image, mounts=mounts)] *)
Definition Container_ainit (image : string)
    (mounts : option (list (list string))) : io Container () :=
  let args := [] in
  let args :=
    match mounts with
    | Some (m :: ms) =>
        foldl (λ args mntinfo, args ++ ["--volume"; str_join ":" mntinfo])
          args (m :: ms)
    | _ => args
    end in
  out ← _buildah_out ("from" :: args ++ [image]);
  _ ← modify_self (set_id (strip out));
  _init_config.

(** [Container._from_id_only(id)]: the call [self._init_config()] makes a
    coroutine that is not awaited, so nothing of [_init_config] runs. *)
Definition Container_from_id_only (id : string) : Container :=
  set_id id blank_container.

(** [Container.commit] *)
Definition commit : io Container Image :=
  _ ← _commit_config;
  self ← get_self;
  out ← _buildah_out ["commit"; _id self];
  mret (Image_from_id_only (strip out)).

(** [Container.copy_in(src, dst)] *)
Definition copy_in (src dst : string) : io Container () :=
  self ← get_self;
  _ ← _buildah_out ["copy"; _id self; src; dst];
  mret ().

(** A member of [volumes]: a [str], or a tuple of [str]. *)
Inductive volume_spec : Type :=
| VolStr (s : string)
| VolTuple (parts : list string).

(** [Container._run_args(user, volumes, mounts, terminal)]; a mount is a
    [dict], given as the list of its items in their order. *)
Definition _run_args (user : option string)
    (volumes : option (list volume_spec))
    (mounts : option (list (list (string * string)))) (terminal : bool)
  : list string :=
  let args := [] in
  let args :=
    match user with
    | Some u => args ++ ["--user"; u]
    | None => args
    end in
  let args :=
    match volumes with
    | Some vols =>
        foldl (λ args vol,
                 match vol with
                 | VolStr s => args ++ ["--volume"; s]
                 | VolTuple parts => args ++ ["--volume"; str_join ":" parts]
                 end) args vols
    | None => args
    end in
  let args :=
    match mounts with
    | Some mnts =>
        foldl (λ args mnt,
                 args ++ ["--mount";
                          str_join "," ((λ kv, kv.1 +:+ "=" +:+ kv.2) <$> mnt)])
          args mnts
    | None => args
    end in
  let args := if terminal then args ++ ["--terminal"] else args in
  args.

(** Where a stream of the process goes: [None] (the stream of the
    caller), [subprocess.PIPE], [subprocess.DEVNULL]. *)
Inductive stream : Type :=
| Inherit
| PIPE
| DEVNULL.

(** [_buildah_out] with the keyword [stdout]: absent ([None] here), it
    is set to [PIPE]; the output is captured, and returned, when the
    stream is [PIPE] only.  The keywords [stdin], [stderr] and [text]
    are left at [None]. *)
Definition _buildah_out_kw {S} (stdout_kw : option stream)
    (cmd : list string) : io S (option string) := λ st,
  let target := default PIPE stdout_kw in
  let proc := buildah st.2 cmd in
  let st' := (st.1, st.2 ++ [cmd]) in
  let out :=
    match target with
    | PIPE => Some (stdout proc)
    | _ => None
    end in
  if decide (returncode proc ≠ 0%Z)
  then (Raise (CalledProcessError (returncode proc) ("buildah" :: cmd) out),
        st')
  else (Ok out, st').

(** [async with container: body], with [Container.__aenter__] and
    [Container.__aexit__] as the class defines them: [__aexit__] is
    called on every way out of the body and runs [rm] with
    [stdout=subprocess.DEVNULL]; it returns [None], so an exception of
    the body goes on. *)
Definition async_with_container {A} (body : io Container A)
  : io Container A :=
  λ st,
    let exit : io Container () :=
      self ← get_self;
      _ ← _buildah_out_kw (Some DEVNULL) ["rm"; _id self];
      mret () in
    match body st with
    | (Ok a, st') => (_ ← exit; mret a) st'
    | (Raise e, st') => (_ ← exit; raise e) st'
    end.

(** [Container.run(cmd, user=, volumes=, mounts=, terminal=, stdout=)],
    with [stdin], [stderr] and [text] left at their default [None];
    [stdout_arg] is the argument [stdout], [Inherit] by default. *)
Definition run (cmd : list string) (user : option string)
    (volumes : option (list volume_spec))
    (mounts : option (list (list (string * string)))) (terminal : bool)
    (stdout_arg : stream) : io Container (option string) :=
  _ ← _commit_config;
  self ← get_self;
  let args := _run_args user volumes mounts terminal in
  _buildah_out_kw (Some stdout_arg)
    ("run" :: args ++ "--" :: _id self :: cmd).

(** The process [asyncio.create_subprocess_exec('buildah', ...)] starts
    and returns without waiting for it. *)
Record Process := mkProcess { argv : list string }.

Definition create_subprocess_exec_buildah {S} (cmd : list string)
  : io S Process := λ st,
  (Ok (mkProcess ("buildah" :: cmd)), (st.1, st.2 ++ [cmd])).

(** [Container.popen(cmd, user=, volumes=, mounts=, terminal=)] *)
Definition popen (cmd : list string) (user : option string)
    (volumes : option (list volume_spec))
    (mounts : option (list (list (string * string)))) (terminal : bool)
  : io Container Process :=
  _ ← _commit_config;
  self ← get_self;
  let args := _run_args user volumes mounts terminal in
  create_subprocess_exec_buildah
    ("run" :: args ++ "--" :: _id self :: cmd).

(** *** The run arguments as the specification words them *)

Definition volume_arg (vol : volume_spec) : string :=
  match vol with
  | VolStr s => s
  | VolTuple parts => str_join ":" parts
  end.

Definition mount_arg (mnt : list (string * string)) : string :=
  str_join "," ((λ kv, kv.1 +:+ "=" +:+ kv.2) <$> mnt).
(** ** Concrete instances *)

Definition env_abc : gmap string string :=
  {["a" := "1"; "b" := "2"; "c" := "3"]}.
Definition env_bcd : gmap string string :=
  {["b" := "2"; "c" := "4"; "d" := "5"]}.


Definition base_container : Container :=
  mkContainer "c1" env_abc ["sh"; "-c"; "echo hi"] ["/entry"] ∅
    {["/data"]} "/srv" None.

(** A container in step with buildah, and the same after the caller has
    changed its working directory and dropped its volume. *)
Definition synced_container : Container := _snapshot_config base_container.

Definition dirty_container : Container :=
  set_workdir "/app" (set_volumes ∅ synced_container).

(** A buildah that does all it is asked. *)
Definition buildah_ok : Log → list string → Proc :=
  λ _ _, mkProc 0 "  /var/lib/containers/merged ".

(** A buildah whose [config] command fails. *)
Definition buildah_config_fails : Log → list string → Proc :=
  λ _ cmd,
    match cmd with
    | "config" :: _ => mkProc 125 ""
    | _ => mkProc 0 ""
    end.

(** A buildah that finds no image to pull. *)
Definition buildah_pull_fails : Log → list string → Proc :=
  λ _ cmd,
    match cmd with
    | "pull" :: _ => mkProc 125 ""
    | _ => mkProc 0 ""
    end.

(** A buildah with one local image, [abc123], and the reading of its
    listing. *)
Definition buildah_one_image : Log → list string → Proc :=
  λ _ cmd,
    match cmd with
    | "images" :: _ => mkProc 0 "<listing of abc123>"
    | _ => mkProc 0 "abc123"
    end.

Definition loads_one_image (text : string) : result json :=
  if decide (text = "<listing of abc123>")
  then Ok (JList [JObj [("id", JStr "abc123"); ("names", JList [])]])
  else Raise (ValueError "Expecting value").

(** A buildah that answers [inspect], and the reading of its answer: a
    configuration with an environment of three variables, one of them
    with [=] in its value, a null command and no labels. *)
Definition example_config : list (string * json) :=
  [("Env", JList [JStr "PATH=/usr/bin:/bin"; JStr "OPTS=-a=1 -b=2";
                  JStr "EMPTY="]);
   ("Cmd", JNull);
   ("Entrypoint", JList [JStr "/entry"; JStr "--serve"]);
   ("Volumes", JObj [("/data", JObj []); ("/cache", JObj [])]);
   ("WorkingDir", JStr "/srv");
   ("User", JStr "nobody")].

Definition example_payload : Payload :=
  mkPayload
    (Present [("PATH", "/usr/bin:/bin"); ("OPTS", "-a=1 -b=2"); ("EMPTY", "")])
    Null
    (Present ["/entry"; "--serve"])
    Missing
    (Present ["/data"; "/cache"])
    (Present "/srv").

Definition buildah_inspect : Log → list string → Proc :=
  λ _ cmd,
    match cmd with
    | "inspect" :: _ => mkProc 0 "<inspect output>"
    | _ => mkProc 0 ""
    end.

Definition loads_inspect (text : string) : result json :=
  if decide (text = "<inspect output>")
  then Ok (JObj [("Container", JStr "c1"); ("Config", JStr "<config>")])
  else if decide (text = "<config>")
  then Ok (JObj [("created", JStr "2020"); ("config", JObj example_config)])
  else Raise (ValueError "Expecting value").

(** A body of an [async with] that fails, and one that is cancelled. *)
Definition body_fails {S} (path : pathlib_Path) : io S () :=
  raise (RuntimeError "boom").
Definition body_cancelled {S} (path : pathlib_Path) : io S () :=
  raise CancelledError.

(** The scenarios of the specification: a variable [A=1] set on an empty
    environment, and the volume [/data] dropped. *)
Definition empty_container : Container :=
  _snapshot_config (mkContainer "c1" ∅ [] [] ∅ ∅ "" None).

Definition with_volume : Container :=
  _snapshot_config (mkContainer "c1" ∅ [] [] ∅ {["/data"]} "" None).

(** A buildah that cannot mount. *)
Definition buildah_mount_fails : Log → list string → Proc :=
  λ _ cmd,
    match cmd with
    | "mount" :: _ => mkProc 1 ""
    | _ => mkProc 0 ""
    end.

(** The reading of an [inspect] answer whose environment has an entry
    without [=], and of one without configuration. *)
Definition loads_bad_env (text : string) : result json :=
  if decide (text = "<inspect output>")
  then Ok (JObj [("Config", JStr "<config>")])
  else if decide (text = "<config>")
  then Ok (JObj [("config",
                  JObj [("Env", JList [JStr "PATH=/bin"; JStr "DEBUG";
                                       JStr "HOME=/root"])])])
  else Raise (ValueError "Expecting value").

Definition loads_no_config (text : string) : result json :=
  if decide (text = "<inspect output>")
  then Ok (JObj [("Container", JStr "c1"); ("Config", JStr "")])
  else Raise (ValueError "Expecting value").

(** A body of a scope that copies a file and returns. *)
Definition body_copies (path : pathlib_Path) : io Container nat :=
  λ st,
    let 'Path arg := path in
    (Ok 7, (st.1, st.2 ++ [["copy"; "c1"; arg; "/etc/motd"]])).

(** A buildah that cannot remove a container. *)
Definition buildah_rm_fails : Log → list string → Proc :=
  λ _ cmd,
    match cmd with
    | "rm" :: _ => mkProc 125 "in use"
    | _ => mkProc 0 ""
    end.
(** * Properties *)

Lemma getitem_Some (d : gmap string string) (k v : string) :
  d !! k = Some v → getitem d k = Ok v.
Proof. intros H. unfold getitem. by rewrite H. Qed.

Lemma elem_of_set_iter (X : gset string) (k : string) :
  k ∈ set_iter X ↔ k ∈ X.
Proof. rewrite set_iter_perm. apply elem_of_elements. Qed.

Lemma NoDup_set_iter (X : gset string) : NoDup (set_iter X).
Proof. rewrite set_iter_perm. apply NoDup_elements. Qed.

(** The comparison loop of [_dict_diff] never raises on keys both dicts
    hold, and adds exactly the keys whose values differ. *)
Lemma dict_diff_loop (old new : gmap string string) (l : list string)
    (acc : gset string) :
  (∀ k, k ∈ l → k ∈ dom new ∩ dom old) →
  ∃ acc', for_each l
      (λ key changed,
         n ← getitem new key;
         o ← getitem old key;
         Ok (if decide (n ≠ o) then {[key]} ∪ changed else changed)) acc
      = Ok acc' ∧
    ∀ k, k ∈ acc' ↔ k ∈ acc ∨ (k ∈ l ∧ old !! k ≠ new !! k).
Proof.
  revert acc. induction l as [|x l IH]; intros acc Hl.
  - exists acc. split; [done|]. intros k. rewrite elem_of_nil. tauto.
  - assert (Hx : x ∈ dom new ∩ dom old) by (apply Hl; left).
    apply elem_of_intersection in Hx as [Hn Ho].
    apply elem_of_dom in Hn as [n Hn]. apply elem_of_dom in Ho as [o Ho].
    cbn [for_each].
    rewrite (getitem_Some _ _ _ Hn). cbn [mbind result_bind].
    rewrite (getitem_Some _ _ _ Ho). cbn [mbind result_bind].
    destruct (IH (if decide (n ≠ o) then {[x]} ∪ acc else acc))
      as (acc' & Heq & Hchar).
    { intros k Hk. apply Hl. by right. }
    exists acc'. split; [exact Heq|].
    intros k. rewrite Hchar. clear Hchar Heq IH.
    destruct (decide (n ≠ o)) as [Hne|Heq].
    + rewrite elem_of_union, elem_of_singleton, elem_of_cons.
      split; [|intros [?|[[->|?] ?]]; tauto].
      intros [[->|?]|?]; [|tauto|tauto].
      right. split; [by left|]. rewrite Hn, Ho. congruence.
    + apply dec_stable in Heq. subst o. rewrite elem_of_cons.
      split; [tauto|]. intros [?|[[->|?] Hd]]; [tauto| |tauto].
      rewrite Hn, Ho in Hd. done.
Qed.

(** What [_dict_diff] returns, key by key; in particular its assertion
    never fires. *)
Lemma dict_diff_spec (old new : gmap string string) :
  ∃ changed deleted,
    _dict_diff old new = Ok (changed, deleted) ∧
    changed = added_or_changed old new ∧
    deleted = dom old ∖ dom new.
Proof.
  unfold _dict_diff.
  destruct (dict_diff_loop old new (set_iter (dom new ∩ dom old))
              (dom new ∖ dom old)) as (acc' & -> & Hchar).
  { intros k. by rewrite elem_of_set_iter. }
  assert (Hacc : acc' = added_or_changed old new).
  { apply set_eq. intros k. rewrite Hchar, elem_of_set_iter.
    unfold added_or_changed. rewrite elem_of_filter.
    rewrite elem_of_difference, elem_of_intersection, !elem_of_dom.
    split.
    - intros [[Hn Ho]|[[Hn _] Hd]]; (split; [|done]); [|exact Hd].
      intros Heq. apply Ho. by rewrite Heq.
    - intros [Hd Hn]. destruct (old !! k) as [o|] eqn:Ho.
      + right. eauto.
      + left. split; [done|]. by intros [? ?]. }
  cbn. subst acc'.
  destruct (decide _) as [_|Hne].
  - by eexists _, _.
  - exfalso. apply Hne. apply size_empty_iff.
    unfold added_or_changed. set_solver.
Qed.

(** C1. For every snapshot dict [A] and live dict [B], [_dict_diff A B]
    returns (its assertion does not fire) the added-or-changed set, which
    holds exactly the keys of [B] that [A] lacks or holds with another
    value, and the deleted set, which holds exactly the keys of [A] that
    [B] lacks; the two sets are disjoint and their union with the
    unchanged keys is [keys(A) ∪ keys(B)]; and [_dict_diff A A] returns
    two empty sets. *)
Theorem dict_diff_correct (A B : gmap string string) :
  (∃ changed deleted,
     _dict_diff A B = Ok (changed, deleted) ∧
     (∀ k, k ∈ changed ↔
           k ∈ dom B ∧ (k ∉ dom A ∨ A !! k ≠ B !! k)) ∧
     (∀ k, k ∈ deleted ↔ k ∈ dom A ∧ k ∉ dom B) ∧
     changed ## deleted ∧
     changed ∪ deleted ∪ unchanged_keys A B = dom A ∪ dom B) ∧
  _dict_diff A A = Ok (∅, ∅).
Proof.
  split.
  - destruct (dict_diff_spec A B) as (ch & de & Heq & -> & ->).
    exists (added_or_changed A B), (dom A ∖ dom B).
    split; [exact Heq|]. unfold added_or_changed, unchanged_keys.
    split; [|split; [|split]].
    + intros k. rewrite elem_of_filter, !elem_of_dom, !is_Some_alt.
      destruct (A !! k) as [a|], (B !! k) as [b|]; intuition congruence.
    + intros k. apply elem_of_difference.
    + set_solver.
    + apply set_eq. intros k.
      rewrite !elem_of_union, !elem_of_filter, elem_of_difference,
        elem_of_intersection.
      rewrite !elem_of_dom, !is_Some_alt.
      destruct (A !! k) as [a|], (B !! k) as [b|];
        [destruct (decide (a = b)) as [->|]|..]; intuition congruence.
  - destruct (dict_diff_spec A A) as (ch & de & Heq & -> & ->).
    rewrite Heq. f_equal. f_equal.
    + unfold added_or_changed. set_solver.
    + set_solver.
Qed.


(** ** Serialisers *)

Lemma append_cons (c : ascii) (s t : string) :
  String c s +:+ t = String c (s +:+ t).
Proof. reflexivity. Qed.

Lemma append_assoc (s1 s2 s3 : string) :
  (s1 +:+ s2) +:+ s3 = s1 +:+ s2 +:+ s3.
Proof.
  induction s1 as [|c s1 IH]; [done|]. rewrite !append_cons. by f_equal.
Qed.

Lemma append_nil_r (s : string) : s +:+ "" = s.
Proof.
  induction s as [|c s IH]; [done|]. rewrite append_cons. by f_equal.
Qed.

Lemma join_shellwords_quoted (seq : list string) :
  _join_shellwords seq = quoted_tokens seq.
Proof.
  unfold _join_shellwords, str_join.
  induction seq as [|t [|t' rest] IH]; [done|done|].
  change (quoted_tokens (t :: t' :: rest))
    with ("'" +:+ t +:+ "' " +:+ quoted_tokens (t' :: rest)).
  rewrite <- IH. cbn [map String.concat].
  by rewrite !append_assoc.
Qed.

Example join_shellwords_no_escape :
  _join_shellwords ["echo"; "it's"] = "'echo' 'it's'".
Proof. reflexivity. Qed.

Example json_dumps_escapes :
  json_dumps ["a" +:+ dquote +:+ "b"; "c\d";
              String "127" (String "233" (String "010" (String "001" "")))]
  = "[" +:+ dquote +:+ "a\" +:+ dquote +:+ "b" +:+ dquote +:+ ", "
    +:+ dquote +:+ "c\\d" +:+ dquote +:+ ", "
    +:+ dquote +:+ "\u007f\u00e9\n\u0001" +:+ dquote +:+ "]".
Proof. reflexivity. Qed.

Example json_dumps_empty : json_dumps [] = "[]".
Proof. reflexivity. Qed.

(** ** The argument list *)

Lemma for_each_append {A : Type} (f : A → list string) (l : list A)
    (args : list string) :
  for_each l (λ x args, Ok (args ++ f x)) args
  = Ok (args ++ flat_map f l).
Proof.
  revert args. induction l as [|x l IH]; intros args; cbn.
  - by rewrite app_nil_r.
  - rewrite IH. by rewrite <- app_assoc.
Qed.

Lemma for_each_env_add (env : gmap string string) (l : list string)
    (args : list string) :
  (∀ k, k ∈ l → k ∈ dom env) →
  for_each l
    (λ key args,
       v ← getitem env key; Ok (args ++ ["--env"; key +:+ "=" +:+ v]))
    args
  = Ok (args ++ flat_map (λ k, ["--env"; k +:+ "=" +:+ (env !!! k)]) l).
Proof.
  revert args. induction l as [|x l IH]; intros args Hl; cbn.
  - by rewrite app_nil_r.
  - assert (Hx : x ∈ dom env) by (apply Hl; left).
    apply elem_of_dom in Hx as [v Hv].
    rewrite (getitem_Some _ _ _ Hv). cbn [mbind result_bind].
    rewrite IH by (intros k Hk; apply Hl; by right).
    rewrite <- app_assoc. cbn.
    by rewrite (lookup_total_correct _ _ _ Hv).
Qed.

Lemma ungroup_app (g1 g2 : list (string * string)) :
  ungroup (g1 ++ g2) = ungroup g1 ++ ungroup g2.
Proof. apply flat_map_app. Qed.

Lemma ungroup_key_groups (flag : string) (ser : string → string)
    (keys : list string) :
  ungroup (key_groups flag ser keys) = flat_map (λ k, [flag; ser k]) keys.
Proof. induction keys as [|k keys IH]; cbn; [done|]. by rewrite <- IH. Qed.

Lemma flag_groups_ungroup (groups : list (string * string)) :
  flag_groups (ungroup groups) = groups.
Proof.
  induction groups as [|[f v] groups IH]; [done|].
  change (ungroup ((f, v) :: groups)) with (f :: v :: ungroup groups).
  cbn [flag_groups]. by f_equal.
Qed.

(** [_produce_config_args] returns, and returns the flag groups of
    [config_groups]. *)
Lemma produce_config_args_groups (self snap : Container) :
  _snapshot self = Some snap →
  _produce_config_args self = Ok (ungroup (config_groups snap self)).
Proof.
  intros Hsnap. unfold _produce_config_args, getattr_snapshot.
  rewrite Hsnap. cbn [mbind result_bind].
  destruct (dict_diff_spec (environ snap) (environ self))
    as (ch & de & -> & -> & ->).
  cbn [mbind result_bind].
  rewrite for_each_env_add.
  2:{ intros k. rewrite elem_of_set_iter. unfold added_or_changed.
      rewrite elem_of_filter. tauto. }
  cbn [mbind result_bind].
  rewrite (for_each_append (λ k, ["--env"; k +:+ "-"])).
  cbn [mbind result_bind].
  rewrite (for_each_append (λ v, ["--volume"; v])).
  cbn [mbind result_bind].
  rewrite (for_each_append (λ v, ["--volume"; v +:+ "-"])).
  f_equal.
  unfold config_groups. rewrite !ungroup_app, !ungroup_key_groups.
  rewrite <- !app_assoc. unfold whole_field_group.
  rewrite join_shellwords_quoted.
  destruct (decide (command self ≠ command snap)) as [Hc|Hc],
    (decide (command self = command snap)); try done;
  destruct (decide (entrypoint self ≠ entrypoint snap)) as [He|He],
    (decide (entrypoint self = entrypoint snap)); try done;
  destruct (decide (workdir self ≠ workdir snap)) as [Hw|Hw],
    (decide (workdir self = workdir snap)); try done.
Qed.

(** C4. For every container state and snapshot, [_produce_config_args]
    returns the flag groups of the changed fields in the fixed order
    command, entrypoint, working directory, environment additions,
    environment deletions, volume additions, volume deletions: the command
    as its tokens each between single quotes and joined by spaces (nothing
    escaped), the entrypoint as [json.dumps] writes an array, the working
    directory as it is, an environment addition as [KEY=VALUE] with the
    live value, an environment deletion as [KEY-], a volume addition as
    the path, a volume deletion as the path followed by [-]; with one
    group for each key or path added, changed or deleted. *)
Theorem produce_config_args_order (self snap : Container) :
  _snapshot self = Some snap →
  ∃ env_add env_del vol_add vol_del : list string,
    env_add ≡ₚ elements (added_or_changed (environ snap) (environ self)) ∧
    env_del ≡ₚ elements (dom (environ snap) ∖ dom (environ self)) ∧
    vol_add ≡ₚ elements (volumes self ∖ volumes snap) ∧
    vol_del ≡ₚ elements (volumes snap ∖ volumes self) ∧
    _produce_config_args self = Ok (ungroup (
      whole_field_group "--cmd" quoted_tokens (command snap) (command self)
      ++ whole_field_group "--entrypoint" json_dumps
           (entrypoint snap) (entrypoint self)
      ++ whole_field_group "--workingdir" id (workdir snap) (workdir self)
      ++ key_groups "--env" (λ k, k +:+ "=" +:+ (environ self !!! k)) env_add
      ++ key_groups "--env" (λ k, k +:+ "-") env_del
      ++ key_groups "--volume" id vol_add
      ++ key_groups "--volume" (λ v, v +:+ "-") vol_del)).
Proof.
  intros Hsnap.
  exists (set_iter (added_or_changed (environ snap) (environ self))),
    (set_iter (dom (environ snap) ∖ dom (environ self))),
    (set_iter (volumes self ∖ volumes snap)),
    (set_iter (volumes snap ∖ volumes self)).
  repeat (split; [apply set_iter_perm|]).
  exact (produce_config_args_groups self snap Hsnap).
Qed.

Lemma set_iter_empty : set_iter ∅ = [].
Proof.
  apply Permutation_nil_r. rewrite set_iter_perm. by rewrite elements_empty.
Qed.

Lemma added_or_changed_same (A : gmap string string) :
  added_or_changed A A = ∅.
Proof. unfold added_or_changed. set_solver. Qed.

Lemma flags_app (g1 g2 : list (string * string)) :
  flags (ungroup (g1 ++ g2)) = flags (ungroup g1) ++ flags (ungroup g2).
Proof. unfold flags. rewrite !flag_groups_ungroup. apply fmap_app. Qed.

Lemma flags_whole_field_group {A : Type} `{EqDecision A} (flag : string)
    (ser : A → string) (snap live : A) (f : string) :
  f ∈ flags (ungroup (whole_field_group flag ser snap live)) →
  f = flag ∧ live ≠ snap.
Proof.
  unfold whole_field_group. destruct (decide (live = snap)); cbn.
  - by intros ?%elem_of_nil.
  - by intros ->%list_elem_of_singleton.
Qed.

Lemma flags_key_groups (flag : string) (ser : string → string)
    (keys : list string) (f : string) :
  f ∈ flags (ungroup (key_groups flag ser keys)) → f = flag ∧ keys ≠ [].
Proof.
  unfold flags. rewrite flag_groups_ungroup. unfold key_groups.
  rewrite <- list_fmap_compose. intros (k & -> & Hk)%list_elem_of_fmap.
  split; [done|]. intros ->. by apply elem_of_nil in Hk.
Qed.

(** The flags of the argument list: each stands for a field that differs
    from its snapshot. *)
Lemma flags_config_groups (snap live : Container) (f : string) :
  f ∈ flags (ungroup (config_groups snap live)) →
  (f = "--cmd" ∧ command live ≠ command snap)
  ∨ (f = "--entrypoint" ∧ entrypoint live ≠ entrypoint snap)
  ∨ (f = "--workingdir" ∧ workdir live ≠ workdir snap)
  ∨ (f = "--env" ∧ environ live ≠ environ snap)
  ∨ (f = "--volume" ∧ volumes live ≠ volumes snap).
Proof.
  unfold config_groups. rewrite !flags_app, !elem_of_app.
  intros [H|[H|[H|[H|[H|[H|H]]]]]].
  - apply flags_whole_field_group in H. tauto.
  - apply flags_whole_field_group in H. tauto.
  - apply flags_whole_field_group in H. tauto.
  - apply flags_key_groups in H as [-> Hne]. do 3 right. left.
    split; [done|]. intros Heq. apply Hne.
    by rewrite Heq, added_or_changed_same, set_iter_empty.
  - apply flags_key_groups in H as [-> Hne]. do 3 right. left.
    split; [done|]. intros Heq. apply Hne.
    by rewrite Heq, difference_diag_L, set_iter_empty.
  - apply flags_key_groups in H as [-> Hne]. do 4 right.
    split; [done|]. intros Heq. apply Hne.
    by rewrite Heq, difference_diag_L, set_iter_empty.
  - apply flags_key_groups in H as [-> Hne]. do 4 right.
    split; [done|]. intros Heq. apply Hne.
    by rewrite Heq, difference_diag_L, set_iter_empty.
Qed.

(** No flag group at all when every field that has a flag equals its
    snapshot value. *)
Lemma config_groups_same (snap live : Container) :
  command live = command snap →
  entrypoint live = entrypoint snap →
  workdir live = workdir snap →
  environ live = environ snap →
  volumes live = volumes snap →
  config_groups snap live = [].
Proof.
  intros Hc He Hw Hen Hv. unfold config_groups, whole_field_group.
  rewrite Hc, He, Hw, Hen, Hv, added_or_changed_same, !difference_diag_L,
    set_iter_empty.
  by rewrite !decide_True by done.
Qed.

(** C5. [_produce_config_args] returns an argument list with no flag
    group for a field whose live value equals its snapshot value (command,
    entrypoint, working directory, environment, volumes), and the empty
    list when every tracked field equals its snapshot value. *)
Theorem produce_config_args_minimal (self snap : Container) :
  _snapshot self = Some snap →
  ∃ args,
    _produce_config_args self = Ok args ∧
    (command self = command snap → "--cmd" ∉ flags args) ∧
    (entrypoint self = entrypoint snap → "--entrypoint" ∉ flags args) ∧
    (workdir self = workdir snap → "--workingdir" ∉ flags args) ∧
    (environ self = environ snap → "--env" ∉ flags args) ∧
    (volumes self = volumes snap → "--volume" ∉ flags args) ∧
    (command self = command snap → entrypoint self = entrypoint snap →
     workdir self = workdir snap → environ self = environ snap →
     labels self = labels snap → volumes self = volumes snap →
     args = []).
Proof.
  intros Hsnap. exists (ungroup (config_groups snap self)).
  split; [by apply produce_config_args_groups|].
  repeat split.
  - intros Heq Hin. apply flags_config_groups in Hin. naive_solver.
  - intros Heq Hin. apply flags_config_groups in Hin. naive_solver.
  - intros Heq Hin. apply flags_config_groups in Hin. naive_solver.
  - intros Heq Hin. apply flags_config_groups in Hin. naive_solver.
  - intros Heq Hin. apply flags_config_groups in Hin. naive_solver.
  - intros Hc He Hw Hen _ Hv. by rewrite config_groups_same.
Qed.

(** ** Reconciliation *)

Lemma bind_unfold {S A B : Type} (m : io S A) (f : A → io S B)
    (st : S * Log) :
  (m ≫= f) st =
    match m st with
    | (Ok a, st') => f a st'
    | (Raise e, st') => (Raise e, st')
    end.
Proof. reflexivity. Qed.

Ltac io_unfold :=
  unfold mbind, io_bind, mret, io_ret, get_self, put_self, modify_self,
    lift, raise; cbn [fst snd].

Lemma commit_config_no_snapshot (self : Container) (log : Log) :
  _snapshot self = None →
  _commit_config (self, log) = (Ok (), (self, log)).
Proof using Type. intros H. unfold _commit_config. io_unfold. by rewrite H. Qed.

Lemma commit_config_clean (self snap : Container) (log : Log) :
  _snapshot self = Some snap →
  _produce_config_args self = Ok [] →
  _commit_config (self, log) = (Ok (), (self, log)).
Proof using Type.
  intros Hs Hargs. unfold _commit_config. io_unfold. rewrite Hs, Hargs.
  by rewrite decide_False by (by intros ?).
Qed.

Lemma commit_config_dirty (self snap : Container) (log : Log)
    (args : list string) :
  _snapshot self = Some snap →
  _produce_config_args self = Ok args →
  args ≠ [] →
  let proc := buildah log (config_cmd args self) in
  _commit_config (self, log) =
    if decide (returncode proc ≠ 0%Z)
    then (Raise (CalledProcessError (returncode proc)
                   ("buildah" :: config_cmd args self) (Some (stdout proc))),
          (self, log ++ [config_cmd args self]))
    else (Ok (), (_snapshot_config self, log ++ [config_cmd args self])).
Proof using Type.
  intros Hs Hargs Hne. unfold _commit_config. io_unfold. rewrite Hs, Hargs.
  rewrite decide_True by done.
  unfold _buildah_out, config_cmd. cbn [fst snd].
  by destruct (decide (returncode _ ≠ 0%Z)).
Qed.

(** Straight after a snapshot nothing differs from it. *)
Lemma produce_config_args_snapshot (self : Container) :
  _produce_config_args (_snapshot_config self) = Ok [].
Proof.
  rewrite (produce_config_args_groups (_snapshot_config self) self eq_refl).
  by rewrite config_groups_same.
Qed.

(** C2, as the code has it. When a call of [_commit_config] returns (the
    update command, if one was run, exited with zero), it has run at most
    one command, and a second call with no attribute changed in between
    computes an empty argument list, runs no command and leaves the
    object as it is. *)
Theorem commit_config_idempotent (self self1 : Container) (log log1 : Log) :
  _commit_config (self, log) = (Ok (), (self1, log1)) →
  (∃ cmds, log1 = log ++ cmds ∧ length cmds ≤ 1) ∧
  (_snapshot self1 = None ∨ _produce_config_args self1 = Ok []) ∧
  _commit_config (self1, log1) = (Ok (), (self1, log1)).
Proof.
  intros Hfirst. destruct (_snapshot self) as [snap|] eqn:Hs.
  - pose proof (produce_config_args_groups self snap Hs) as Hargs.
    destruct (decide (ungroup (config_groups snap self) = [])) as [Hnil|Hne].
    + rewrite Hnil in Hargs.
      rewrite (commit_config_clean self snap log Hs Hargs) in Hfirst.
      injection Hfirst as <- <-. split; [|split].
      * exists []. split; [by rewrite app_nil_r|cbn; lia].
      * by right.
      * by apply (commit_config_clean self snap).
    + rewrite (commit_config_dirty self snap log _ Hs Hargs Hne) in Hfirst.
      cbn zeta in Hfirst.
      destruct (decide (returncode _ ≠ 0%Z)); [discriminate|].
      injection Hfirst as <- <-. split; [|split].
      * eexists [_]. split; [done|cbn; lia].
      * right. apply produce_config_args_snapshot.
      * apply (commit_config_clean _ self); [done|].
        apply produce_config_args_snapshot.
  - rewrite (commit_config_no_snapshot self log Hs) in Hfirst.
    injection Hfirst as <- <-. split; [|split].
    + exists []. split; [by rewrite app_nil_r|cbn; lia].
    + by left.
    + by apply commit_config_no_snapshot.
Qed.

(** C3. When the update command [_commit_config] runs exits with a code
    other than zero, the call raises the [CalledProcessError] of that
    command and leaves the object, its snapshot included, as it was; the
    next call computes the same arguments and runs the same command
    again. *)
Theorem commit_config_failure (self snap : Container) (log : Log)
    (args : list string) :
  _snapshot self = Some snap →
  _produce_config_args self = Ok args →
  args ≠ [] →
  returncode (buildah log (config_cmd args self)) ≠ 0%Z →
  ∃ st1,
    _commit_config (self, log) =
      (Raise (CalledProcessError
                (returncode (buildah log (config_cmd args self)))
                ("buildah" :: config_cmd args self)
                (Some (stdout (buildah log (config_cmd args self))))), st1) ∧
    st1 = (self, log ++ [config_cmd args self]) ∧
    _snapshot st1.1 = Some snap ∧
    _produce_config_args st1.1 = Ok args ∧
    (_commit_config st1).2.2
      = log ++ [config_cmd args self; config_cmd args self].
Proof using Type.
  intros Hs Hargs Hne Hrc. exists (self, log ++ [config_cmd args self]).
  rewrite (commit_config_dirty self snap log args Hs Hargs Hne).
  cbn zeta. rewrite decide_True by done.
  repeat split; [done..|].
  rewrite (commit_config_dirty self snap _ args Hs Hargs Hne).
  cbn zeta. rewrite <- app_assoc.
  by destruct (decide (returncode _ ≠ 0%Z)).
Qed.

(** ** Reading the configuration *)

Lemma str_split1_cons (sep c : ascii) (s : string) :
  str_split1 sep (String c s) =
    if decide (c = sep) then [""; s]
    else match str_split1 sep s with
         | h :: t => String c h :: t
         | [] => [String c ""]
         end.
Proof. reflexivity. Qed.

Lemma str_split1_first (sep : ascii) (k v : string) :
  str_in sep k = false →
  str_split1 sep (k +:+ String sep v) = [k; v].
Proof.
  induction k as [|c k IH]; intros Hk.
  - change ("" +:+ String sep v) with (String sep v).
    rewrite str_split1_cons. by rewrite decide_True.
  - cbn [str_in] in Hk. destruct (decide (c = sep)) as [|Hne]; [done|].
    rewrite append_cons, str_split1_cons. rewrite decide_False by done.
    by rewrite IH.
Qed.

Lemma dict_of_split_pairs (kvs : list (string * string))
    (d : gmap string string) :
  (∀ kv, kv ∈ kvs → str_in "=" kv.1 = false) →
  for_each ((λ kv, JStr (kv.1 +:+ "=" +:+ kv.2)) <$> kvs)
    (λ item d,
       pair ← split_eq item;
       match pair with
       | [k; v] => Ok (<[k:=v]> d)
       | _ => Raise (ValueError "dictionary update sequence element has the wrong length; 2 is required")
       end) d
  = Ok (foldl (λ d kv, <[kv.1:=kv.2]> d) d kvs).
Proof.
  revert d. induction kvs as [|[k v] kvs IH]; intros d Hk; [done|].
  cbn [fmap list_fmap for_each split_eq mbind result_bind fst snd foldl].
  change (k +:+ "=" +:+ v) with (k +:+ String "=" v).
  rewrite str_split1_first by (apply (Hk (k, v)); left).
  apply IH. intros kv Hkv. apply Hk. by right.
Qed.

Lemma as_str_list_strs (l acc : list string) :
  for_each (JStr <$> l) (λ item acc, s ← as_str item; Ok (acc ++ [s])) acc
  = Ok (acc ++ l).
Proof.
  revert acc. induction l as [|s l IH]; intros acc.
  - by rewrite app_nil_r.
  - cbn [fmap list_fmap for_each as_str mbind result_bind].
    rewrite IH. by rewrite <- app_assoc.
Qed.

Lemma as_str_dict_pairs (kvs : list (string * string))
    (d : gmap string string) :
  for_each ((λ kv, (kv.1, JStr kv.2)) <$> kvs)
    (λ (kv : string * json) d, s ← as_str kv.2; Ok (<[kv.1:=s]> d)) d
  = Ok (foldl (λ d kv, <[kv.1:=kv.2]> d) d kvs).
Proof.
  revert d. induction kvs as [|[k v] kvs IH]; intros d; [done|].
  cbn [fmap list_fmap for_each as_str mbind result_bind fst snd foldl].
  apply IH.
Qed.

Lemma dict_get_holds {A} (config : list (string * json)) (key : string)
    (enc : A → json) (f : field A) :
  holds config key enc f →
  dict_get (JObj config) key =
    Ok (match f with Present a => enc a | _ => JNull end).
Proof. unfold holds, dict_get. intros ->. by destruct f. Qed.

Lemma py_or_truthy (x y : json) : truthy x = true → py_or x y = x.
Proof. unfold py_or. by intros ->. Qed.

Lemma config_environ_holds (config : list (string * json))
    (f : field (list (string * string))) :
  holds config "Env" enc_env f →
  (∀ kv, kv ∈ field_value [] f → str_in "=" kv.1 = false) →
  config_environ (JObj config) = Ok (dict_of_pairs (field_value [] f)).
Proof.
  intros H Hk. unfold config_environ. rewrite (dict_get_holds _ _ _ _ H).
  cbn [mbind result_bind]. destruct f as [| |[|kv kvs]]; try done.
  rewrite py_or_truthy by reflexivity. cbn [enc_env iterate mbind result_bind].
  unfold dict_of_split. by rewrite dict_of_split_pairs.
Qed.

Lemma config_strs_holds (config : list (string * json)) (key : string)
    (f : field (list string)) :
  holds config key enc_strs f →
  (cmd ← dict_get (JObj config) key; as_str_list (py_or cmd (JList [])))
  = Ok (field_value [] f).
Proof.
  intros H. rewrite (dict_get_holds _ _ _ _ H).
  cbn [mbind result_bind]. destruct f as [| |[|s l]]; try done.
  rewrite py_or_truthy by reflexivity. cbn [enc_strs as_str_list].
  by rewrite as_str_list_strs.
Qed.

Lemma config_labels_holds (config : list (string * json))
    (f : field (list (string * string))) :
  holds config "Labels" enc_labels f →
  config_labels (JObj config) = Ok (dict_of_pairs (field_value [] f)).
Proof.
  intros H. unfold config_labels. rewrite (dict_get_holds _ _ _ _ H).
  cbn [mbind result_bind]. destruct f as [| |[|kv kvs]]; try done.
  rewrite py_or_truthy by reflexivity. cbn [enc_labels as_str_dict].
  by rewrite as_str_dict_pairs.
Qed.

Lemma config_volumes_holds (config : list (string * json))
    (f : field (list string)) :
  holds config "Volumes" enc_volumes f →
  config_volumes (JObj config) = Ok (list_to_set (field_value [] f)).
Proof.
  intros H. unfold config_volumes. rewrite (dict_get_holds _ _ _ _ H).
  cbn [mbind result_bind]. destruct f as [| |[|p ps]]; try done.
  replace (truthy (enc_volumes (p :: ps))) with true by reflexivity.
  unfold subscript. unfold holds in H. rewrite H.
  cbn [mbind result_bind dict_keys enc_volumes field_value]. do 2 f_equal.
  rewrite <- list_fmap_compose. apply list_fmap_id.
Qed.

Lemma config_workdir_holds (config : list (string * json))
    (f : field string) :
  holds config "WorkingDir" JStr f →
  config_workdir (JObj config) = Ok (field_value "" f).
Proof.
  intros H. unfold config_workdir. rewrite (dict_get_holds _ _ _ _ H).
  cbn [mbind result_bind]. destruct f as [| |s]; try done.
  unfold py_or, truthy. cbn [field_value].
  destruct (decide (s = "")) as [->|Hne].
  - by rewrite bool_decide_false by (by intros ?).
  - by rewrite bool_decide_true.
Qed.

Lemma inspect_new (id : string) (log : Log) :
  let cmd := ["inspect"; "--type"; "container"; id] in
  returncode (buildah log cmd) = 0%Z →
  inspect (new_container id, log)
  = (json_loads (stdout (buildah log cmd)), (new_container id, log ++ [cmd])).
Proof using Type.
  intros cmd Hrc. unfold inspect. io_unfold.
  rewrite commit_config_no_snapshot by done.
  unfold _buildah_out. cbn [fst snd new_container _id]. fold cmd.
  destruct (decide _) as [Hnz|_]; [by destruct Hnz|].
  by destruct (json_loads _).
Qed.

(** The assignments of [_init_config] and its snapshot, on a
    configuration object whose six sub-fields read without error. *)
Lemma init_config_assign (config : json) (self : Container) (log : Log)
    (env lab : gmap string string) (cmd ep : list string)
    (vols : gset string) (wd : string) :
  config_environ config = Ok env →
  config_command config = Ok cmd →
  config_entrypoint config = Ok ep →
  config_labels config = Ok lab →
  config_volumes config = Ok vols →
  config_workdir config = Ok wd →
  (v ← lift (config_environ config);
   _ ← modify_self (set_environ v);
   v ← lift (config_command config);
   _ ← modify_self (set_command v);
   v ← lift (config_entrypoint config);
   _ ← modify_self (set_entrypoint v);
   v ← lift (config_labels config);
   _ ← modify_self (set_labels v);
   v ← lift (config_volumes config);
   _ ← modify_self (set_volumes v);
   v ← lift (config_workdir config);
   _ ← modify_self (set_workdir v);
   modify_self _snapshot_config) (self, log)
  = (Ok (),
     (_snapshot_config
        (mkContainer (_id self) env cmd ep lab vols wd (_snapshot self)),
      log)).
Proof using Type.
  intros -> -> -> -> -> ->. reflexivity.
Qed.

(** C9. For every payload of the external tool whose configuration
    object carries known values of [Env], [Cmd], [Entrypoint], [Labels],
    [Volumes] and [WorkingDir] (each missing, null or present, the
    environment written as [KEY=VALUE] entries), [_init_config] returns
    with exactly those values in the attributes of the container, the
    empty mapping, sequence, set or string for a missing or null
    sub-field, and with a snapshot equal to that state. *)
Theorem init_config_roundtrip (id cfg_text : string) (log : Log)
    (info kinda : json) (config : list (string * json)) (p : Payload) :
  returncode (buildah log ["inspect"; "--type"; "container"; id]) = 0%Z →
  json_loads (stdout (buildah log ["inspect"; "--type"; "container"; id]))
    = Ok info →
  subscript info "Config" = Ok (JStr cfg_text) →
  cfg_text ≠ "" →
  json_loads cfg_text = Ok kinda →
  subscript kinda "config" = Ok (JObj config) →
  carries config p →
  (∀ kv, kv ∈ field_value [] (Env p) → str_in "=" kv.1 = false) →
  ∃ self,
    _init_config (new_container id, log)
      = (Ok (), (self, log ++ [["inspect"; "--type"; "container"; id]])) ∧
    _id self = id ∧
    environ self = dict_of_pairs (field_value [] (Env p)) ∧
    command self = field_value [] (Cmd p) ∧
    entrypoint self = field_value [] (Entrypoint p) ∧
    labels self = dict_of_pairs (field_value [] (Labels p)) ∧
    volumes self = list_to_set (field_value [] (Volumes p)) ∧
    workdir self = field_value "" (WorkingDir p) ∧
    _snapshot self = Some (set_snapshot None self).
Proof using Type.
  intros Hrc Hinfo Hcfg Hne Hkinda Hconfig (He & Hc & Hep & Hl & Hv & Hw) Hk.
  eexists. split.
  - unfold _init_config.
    rewrite (bind_unfold inspect). rewrite inspect_new by done.
    rewrite Hinfo.
    rewrite bind_unfold. unfold lift at 1. rewrite Hcfg.
    rewrite bind_unfold.
    cbn [truthy]. rewrite bool_decide_true by done.
    rewrite bind_unfold. unfold lift at 1.
    cbn [json_loads_value]. rewrite Hkinda.
    unfold lift at 1. rewrite Hconfig.
    apply init_config_assign.
    + by apply config_environ_holds.
    + by apply config_strs_holds.
    + by apply config_strs_holds.
    + by apply config_labels_holds.
    + by apply config_volumes_holds.
    + by apply config_workdir_holds.
  - done.
Qed.

(** When the tool reports no configuration ([info['Config']] is empty or
    null) every attribute is empty. *)
Lemma init_config_no_config (id : string) (log : Log) (info c : json) :
  returncode (buildah log ["inspect"; "--type"; "container"; id]) = 0%Z →
  json_loads (stdout (buildah log ["inspect"; "--type"; "container"; id]))
    = Ok info →
  subscript info "Config" = Ok c →
  truthy c = false →
  _init_config (new_container id, log)
  = (Ok (), (_snapshot_config (new_container id),
             log ++ [["inspect"; "--type"; "container"; id]])).
Proof using Type.
  intros Hrc Hinfo Hc Hfalse. unfold _init_config.
  rewrite (bind_unfold inspect). rewrite inspect_new by done.
  rewrite Hinfo.
  rewrite bind_unfold. unfold lift at 1. rewrite Hc.
  rewrite bind_unfold. rewrite Hfalse.
  reflexivity.
Qed.

Lemma foldl_insert_keeps (after : list (string * string))
    (d : gmap string string) (k v : string) :
  d !! k = Some v →
  (∀ kv, kv ∈ after → kv.1 ≠ k) →
  foldl (λ d kv, <[kv.1:=kv.2]> d) d after !! k = Some v.
Proof.
  revert d. induction after as [|[k' v'] after IH]; intros d Hd Hafter;
    [done|].
  cbn [foldl fst snd]. apply IH.
  - rewrite lookup_insert_ne; [done|]. apply (Hafter (k', v')). by left.
  - intros kv Hkv. apply Hafter. by right.
Qed.

(** C10. An entry [KEY=VALUE] of the environment is split at its first
    [=] only: whatever the value is, further [=] included, the pair is
    [KEY] and the whole value; and the environment read from a
    configuration holds under [KEY] the whole value of the last entry
    of that key. *)
Theorem environ_split_first_equals (k v : string)
    (before after : list (string * string)) (config : list (string * json)) :
  str_in "=" k = false →
  (∀ kv, kv ∈ before ++ after → str_in "=" kv.1 = false) →
  (∀ kv, kv ∈ after → kv.1 ≠ k) →
  obj_get "Env" config = Some (enc_env (before ++ (k, v) :: after)) →
  split_eq (JStr (k +:+ "=" +:+ v)) = Ok [k; v] ∧
  ∃ env, config_environ (JObj config) = Ok env ∧ env !! k = Some v.
Proof.
  intros Hk Hothers Hafter Henv. split.
  - cbn [split_eq]. f_equal. by apply str_split1_first.
  - exists (dict_of_pairs (before ++ (k, v) :: after)). split.
    + apply (config_environ_holds config (Present _)); [done|].
      cbn [field_value]. intros kv [?|[->|?]%elem_of_cons]%elem_of_app.
      * apply Hothers, elem_of_app. by left.
      * done.
      * apply Hothers, elem_of_app. by right.
    + unfold dict_of_pairs. rewrite foldl_app. cbn [foldl fst snd].
      apply foldl_insert_keeps; [apply lookup_insert_eq|done].
Qed.

(** ** The mount scope *)

Lemma buildah_out_eq {S} (cmd : list string) (s : S) (log : Log) :
  _buildah_out cmd (s, log) =
    if decide (returncode (buildah log cmd) ≠ 0%Z)
    then (Raise (CalledProcessError (returncode (buildah log cmd))
                   ("buildah" :: cmd) (Some (stdout (buildah log cmd)))),
          (s, log ++ [cmd]))
    else (Ok (stdout (buildah log cmd)), (s, log ++ [cmd])).
Proof. reflexivity. Qed.

Lemma async_with_eq {S Y A} (cm : Generator S Y) (body : Y → io S A)
    (st : S * Log) :
  async_with cm body st =
    match before_yield cm st with
    | (Ok y, st1) =>
        match body y st1 with
        | (Ok a, st2) =>
            match gen_resume cm Next st2 with
            | (Ok _, st3) => (Ok a, st3)
            | (Raise e, st3) => (Raise e, st3)
            end
        | (Raise e, st2) =>
            match gen_resume cm (Throw e) st2 with
            | (Ok _, st3) =>
                (Raise (RuntimeError "generator didn't stop after athrow()"),
                 st3)
            | (Raise e', st3) => (Raise e', st3)
            end
        end
    | (Raise e, st1) => (Raise e, st1)
    end.
Proof.
  unfold async_with. rewrite bind_unfold.
  destruct (before_yield cm st) as [[y|e] st1]; [|done].
  destruct (body y st1) as [[a|e] st2]; [|done].
  rewrite bind_unfold. by destruct (gen_resume cm Next st2) as [[[]|e] st3].
Qed.

Lemma mount_enter (self : Container) (s : Container) (log : Log) :
  returncode (buildah log ["mount"; _id self]) = 0%Z →
  before_yield (mount self) (s, log)
  = (Ok (Path (strip (stdout (buildah log ["mount"; _id self])))),
     (s, log ++ [["mount"; _id self]])).
Proof.
  intros Hrc. cbn [mount before_yield]. rewrite bind_unfold, buildah_out_eq.
  by destruct (decide _) as [Hnz|_]; [destruct Hnz|].
Qed.

Lemma mount_exit_log (self : Container) (st : Container * Log) :
  (gen_resume (mount self) Next st).2.2 = st.2 ++ [["umount"; _id self]].
Proof.
  destruct st as [s log]. cbn [gen_resume mount after_yield].
  rewrite bind_unfold, buildah_out_eq. by destruct (decide _).
Qed.

(** When the body returns, the scope runs [umount] after it. *)
Lemma mount_scope_return {A} (self : Container) (log log' : Log)
    (body : pathlib_Path → io Container A) (a : A) (self' : Container) :
  returncode (buildah log ["mount"; _id self]) = 0%Z →
  body (Path (strip (stdout (buildah log ["mount"; _id self]))))
       (self, log ++ [["mount"; _id self]]) = (Ok a, (self', log')) →
  (async_with (mount self) body (self, log)).2.2
  = log' ++ [["umount"; _id self]].
Proof.
  intros Hrc Hbody. rewrite async_with_eq, mount_enter, Hbody by done.
  pose proof (mount_exit_log self (self', log')) as Hexit.
  by destruct (gen_resume _ _ _) as [[[]|e] st3].
Qed.

(** When the body raises, the exception leaves the scope and nothing runs
    after the body: no [umount]. *)
Lemma mount_scope_raise {A} (self : Container) (log : Log)
    (body : pathlib_Path → io Container A) (e : exn) (st' : Container * Log) :
  returncode (buildah log ["mount"; _id self]) = 0%Z →
  body (Path (strip (stdout (buildah log ["mount"; _id self]))))
       (self, log ++ [["mount"; _id self]]) = (Raise e, st') →
  async_with (mount self) body (self, log) = (Raise e, st').
Proof.
  intros Hrc Hbody. by rewrite async_with_eq, mount_enter, Hbody.
Qed.

(** ** Images *)

(** [subprocess.CalledProcessError] does not evaluate: the module the
    name [subprocess] is bound to has no such attribute. *)
Lemma except_clause_raises :
  module_getattr asyncio_subprocess "asyncio.subprocess" "CalledProcessError"
  = Raise (AttributeError
      "module 'asyncio.subprocess' has no attribute 'CalledProcessError'").
Proof. reflexivity. Qed.

(** When the pull command fails, [pull] raises the [AttributeError] of
    its [except] clause. *)
Lemma pull_failure (name : string) (log : Log) :
  returncode (buildah log ["pull"; name]) ≠ 0%Z →
  pull name ((), log)
  = (Raise (AttributeError
       "module 'asyncio.subprocess' has no attribute 'CalledProcessError'"),
     ((), log ++ [["pull"; name]])).
Proof.
  intros Hrc. unfold pull. rewrite bind_unfold. unfold try_except.
  rewrite buildah_out_eq, decide_True by done.
  by rewrite except_clause_raises.
Qed.

(** [pull] raises no [ImageNotFoundError], whatever buildah does. *)
Lemma pull_never_image_not_found (name : string) (st : () * Log)
    (msg : string) (cause : exn) :
  (pull name st).1 ≠ Raise (ImageNotFoundError msg cause).
Proof.
  destruct st as [[] log]. unfold pull. rewrite bind_unfold.
  unfold try_except. rewrite buildah_out_eq, except_clause_raises.
  by destruct (decide _).
Qed.

(** [_resolve] raises a [TypeError] before it has compared or pulled
    anything. *)
Lemma resolve_raises (id : string) (st : () * Log) :
  _resolve id st
  = (Raise (TypeError "'async_generator' object is not iterable"), st).
Proof. reflexivity. Qed.

(** * Further properties *)

(** ** The diff *)

(** X1. [_dict_diff A B] returns as changed exactly the keys of [B]
    that [A] lacks or holds with another value, and as deleted exactly
    the keys of [A] that [B] lacks. *)
Theorem dict_diff_membership (A B : gmap string string) :
  ∃ changed deleted,
    _dict_diff A B = Ok (changed, deleted) ∧
    (∀ k, k ∈ changed ↔ is_Some (B !! k) ∧ A !! k ≠ B !! k) ∧
    (∀ k, k ∈ deleted ↔ is_Some (A !! k) ∧ B !! k = None).
Proof.
  destruct (dict_diff_spec A B) as (ch & de & Heq & -> & ->).
  eexists _, _. split; [exact Heq|]. split; intros k.
  - unfold added_or_changed. rewrite elem_of_filter, elem_of_dom. tauto.
  - rewrite elem_of_difference, !elem_of_dom, <- eq_None_not_Some. tauto.
Qed.

(** X2. A key that [_dict_diff A B] puts in neither set has the same
    value, or is absent, in both dicts: the two sets miss no difference
    between [A] and [B]. *)
Theorem dict_diff_complete (A B : gmap string string) :
  ∃ changed deleted,
    _dict_diff A B = Ok (changed, deleted) ∧
    ∀ k, k ∉ changed → k ∉ deleted → A !! k = B !! k.
Proof.
  destruct (dict_diff_spec A B) as (ch & de & Heq & -> & ->).
  eexists _, _. split; [exact Heq|]. intros k Hch Hde.
  unfold added_or_changed in Hch.
  rewrite elem_of_filter, elem_of_dom in Hch.
  rewrite elem_of_difference, !elem_of_dom in Hde.
  destruct (decide (A !! k = B !! k)) as [|Hne]; [done|].
  destruct (B !! k) as [b|] eqn:HB.
  - exfalso. apply Hch. split; [done|]. by eexists.
  - destruct (A !! k) as [a|] eqn:HA; [|done].
    exfalso. apply Hde. split; [by eexists|]. by intros [? ?].
Qed.

(** ** Shell words *)

(** X3. [_join_shellwords] does not escape a single quote inside a
    token: one token [a' 'b] is written as the two tokens [a] and [b]
    are. *)
Theorem join_shellwords_quote_splits (a b : string) :
  _join_shellwords [a +:+ "' '" +:+ b] = _join_shellwords [a; b].
Proof.
  unfold _join_shellwords, str_join. cbn [map String.concat].
  by rewrite !append_assoc.
Qed.

Lemma quote_free_prefix (t1 t2 r1 r2 : string) :
  str_in "'" t1 = false →
  str_in "'" t2 = false →
  t1 +:+ String "'" r1 = t2 +:+ String "'" r2 →
  t1 = t2 ∧ r1 = r2.
Proof.
  revert t2. induction t1 as [|c t1 IH]; intros [|c' t2] H1 H2 Heq.
  - change (String "'" r1 = String "'" r2) in Heq. by injection Heq.
  - rewrite append_cons in Heq.
    change (String "'" r1 = String c' (t2 +:+ String "'" r2)) in Heq.
    injection Heq as <- _. cbn [str_in] in H2. by rewrite decide_True in H2.
  - rewrite append_cons in Heq.
    change (String c (t1 +:+ String "'" r1) = String "'" r2) in Heq.
    injection Heq as -> _. cbn [str_in] in H1. by rewrite decide_True in H1.
  - rewrite !append_cons in Heq. injection Heq as -> Heq.
    cbn [str_in] in H1, H2. destruct (decide (c' = "'"%char)); [done|].
    destruct (IH t2 H1 H2 Heq) as [-> ->]. done.
Qed.

Lemma quoted_tokens_cons (t : string) (rest : list string) :
  quoted_tokens (t :: rest) =
    "'" +:+ t +:+ String "'"
      (match rest with [] => "" | _ => " " +:+ quoted_tokens rest end).
Proof.
  destruct rest as [|t' rest]; [done|].
  change (quoted_tokens (t :: t' :: rest))
    with ("'" +:+ t +:+ "' " +:+ quoted_tokens (t' :: rest)).
  reflexivity.
Qed.

(** X4. On tokens that hold no single quote [_join_shellwords] is
    injective: two lists of such tokens written as the same string are
    the same list. *)
Theorem join_shellwords_injective (l1 l2 : list string) :
  (∀ t, t ∈ l1 → str_in "'" t = false) →
  (∀ t, t ∈ l2 → str_in "'" t = false) →
  _join_shellwords l1 = _join_shellwords l2 →
  l1 = l2.
Proof.
  rewrite !join_shellwords_quoted. revert l2.
  induction l1 as [|t1 l1 IH]; intros [|t2 l2] H1 H2 Heq.
  - done.
  - rewrite quoted_tokens_cons in Heq. discriminate.
  - rewrite quoted_tokens_cons in Heq. discriminate.
  - rewrite !quoted_tokens_cons in Heq.
    change ("'" +:+ ?x) with (String "'" x) in Heq.
    injection Heq as Heq.
    apply quote_free_prefix in Heq as [-> Hrest];
      [|apply H1; by left|apply H2; by left].
    f_equal. apply IH.
    + intros t Ht. apply H1. by right.
    + intros t Ht. apply H2. by right.
    + destruct l1 as [|a l1], l2 as [|b l2]; [done| | |].
      * rewrite quoted_tokens_cons in Hrest. discriminate.
      * rewrite quoted_tokens_cons in Hrest. discriminate.
      * change (" " +:+ ?x) with (String " " x) in Hrest.
        by injection Hrest.
Qed.

(** ** Splitting an entry *)

Lemma str_split1_none (sep : ascii) (s : string) :
  str_in sep s = false → str_split1 sep s = [s].
Proof.
  induction s as [|c s IH]; intros H; [done|].
  cbn [str_in] in H. rewrite str_split1_cons.
  destruct (decide (c = sep)); [done|]. by rewrite IH.
Qed.

Lemma str_split1_two (sep : ascii) (s : string) :
  str_in sep s = true →
  ∃ k v, str_split1 sep s = [k; v] ∧
         str_in sep k = false ∧
         s = k +:+ String sep v.
Proof.
  induction s as [|c s IH]; intros H; [done|].
  cbn [str_in] in H. rewrite str_split1_cons.
  destruct (decide (c = sep)) as [->|Hne].
  - exists "", s. by repeat split.
  - destruct (IH H) as (k & v & -> & Hk & ->).
    exists (String c k), v. repeat split.
    cbn [str_in]. by rewrite decide_False.
Qed.

(** X5. An entry that holds a [=] splits in exactly two parts, the text
    before its first [=], which holds none, and the text after it; joined
    by [=] again the two parts are the entry. *)
Theorem split_first_roundtrip (s : string) :
  str_in "=" s = true →
  ∃ k v, str_split1 "=" s = [k; v] ∧
         str_in "=" k = false ∧
         str_join "=" [k; v] = s.
Proof.
  intros H. destruct (str_split1_two "=" s H) as (k & v & Hs & Hk & ->).
  by exists k, v.
Qed.

(** ** The argument list, continued *)

Lemma set_iter_nonempty (X : gset string) : X ≠ ∅ → set_iter X ≠ [].
Proof.
  intros HX Hnil. apply HX. apply leibniz_equiv, elements_empty_inv.
  apply Permutation_nil_r. by rewrite <- set_iter_perm, Hnil.
Qed.

Lemma flags_key_groups_in (flag : string) (ser : string → string)
    (keys : list string) :
  keys ≠ [] → flag ∈ flags (ungroup (key_groups flag ser keys)).
Proof.
  intros Hne. unfold flags. rewrite flag_groups_ungroup.
  destruct keys as [|k keys]; [done|]. cbn. by left.
Qed.

Lemma flags_whole_field_group_in {A : Type} `{EqDecision A} (flag : string)
    (ser : A → string) (snap live : A) :
  live ≠ snap → flag ∈ flags (ungroup (whole_field_group flag ser snap live)).
Proof.
  intros Hne. unfold whole_field_group. rewrite decide_False by done.
  cbn. by left.
Qed.

Lemma environ_differs (A B : gmap string string) :
  A ≠ B → added_or_changed A B ≠ ∅ ∨ dom A ∖ dom B ≠ ∅.
Proof.
  intros Hne.
  destruct (decide (added_or_changed A B = ∅)) as [Hch|]; [|by left].
  destruct (decide (dom A ∖ dom B = ∅)) as [Hde|]; [|by right].
  exfalso. apply Hne. apply map_eq. intros k.
  assert (Hk1 : k ∉ added_or_changed A B) by (rewrite Hch; set_solver).
  assert (Hk2 : k ∉ dom A ∖ dom B) by (rewrite Hde; set_solver).
  unfold added_or_changed in Hk1.
  rewrite elem_of_filter, elem_of_dom in Hk1.
  rewrite elem_of_difference, !elem_of_dom in Hk2.
  destruct (decide (A !! k = B !! k)) as [|Hd]; [done|].
  destruct (B !! k) as [b|] eqn:HB.
  - exfalso. apply Hk1. split; [done|]. by eexists.
  - destruct (A !! k) as [a|] eqn:HA; [|done].
    exfalso. apply Hk2. split; [by eexists|]. by intros [? ?].
Qed.

Lemma volumes_differ (V W : gset string) :
  V ≠ W → V ∖ W ≠ ∅ ∨ W ∖ V ≠ ∅.
Proof.
  intros Hne.
  destruct (decide (V ∖ W = ∅)) as [H1|]; [|by left].
  destruct (decide (W ∖ V = ∅)) as [H2|]; [|by right].
  exfalso. apply Hne. apply set_eq. intros k. split; intros Hk.
  - destruct (decide (k ∈ W)) as [|Hn]; [done|].
    assert (k ∈ V ∖ W) as Hin by set_solver. rewrite H1 in Hin. set_solver.
  - destruct (decide (k ∈ V)) as [|Hn]; [done|].
    assert (k ∈ W ∖ V) as Hin by set_solver. rewrite H2 in Hin. set_solver.
Qed.

(** Every field with a flag that differs from the snapshot has its
    flag among the flag groups. *)
Lemma flags_config_groups_complete (snap live : Container) :
  let fs := flags (ungroup (config_groups snap live)) in
  (command live ≠ command snap → "--cmd" ∈ fs) ∧
  (entrypoint live ≠ entrypoint snap → "--entrypoint" ∈ fs) ∧
  (workdir live ≠ workdir snap → "--workingdir" ∈ fs) ∧
  (environ live ≠ environ snap → "--env" ∈ fs) ∧
  (volumes live ≠ volumes snap → "--volume" ∈ fs).
Proof.
  cbn zeta. unfold config_groups. rewrite !flags_app.
  repeat split; intros H; rewrite !elem_of_app.
  - left. by apply flags_whole_field_group_in.
  - right. left. by apply flags_whole_field_group_in.
  - do 2 right. left. by apply flags_whole_field_group_in.
  - do 3 right.
    destruct (environ_differs (environ snap) (environ live)) as [Hch|Hde];
      [by intros ?| |].
    + left. by apply flags_key_groups_in, set_iter_nonempty.
    + right. left. by apply flags_key_groups_in, set_iter_nonempty.
  - do 5 right.
    destruct (volumes_differ (volumes live) (volumes snap) H) as [Hadd|Hdel].
    + left. by apply flags_key_groups_in, set_iter_nonempty.
    + right. by apply flags_key_groups_in, set_iter_nonempty.
Qed.

(** X6. [_produce_config_args] misses no change of a field that has a
    flag: a command, entrypoint, working directory, environment or
    volume set that differs from the snapshot has its flag in the
    argument list, the list holds no other flag than these five, and it
    is made of whole flag groups. *)
Theorem produce_config_args_complete (self snap : Container) :
  _snapshot self = Some snap →
  ∃ args,
    _produce_config_args self = Ok args ∧
    (command self ≠ command snap → "--cmd" ∈ flags args) ∧
    (entrypoint self ≠ entrypoint snap → "--entrypoint" ∈ flags args) ∧
    (workdir self ≠ workdir snap → "--workingdir" ∈ flags args) ∧
    (environ self ≠ environ snap → "--env" ∈ flags args) ∧
    (volumes self ≠ volumes snap → "--volume" ∈ flags args) ∧
    (∀ f, f ∈ flags args →
       f ∈ ["--cmd"; "--entrypoint"; "--workingdir"; "--env"; "--volume"]) ∧
    args = ungroup (flag_groups args).
Proof.
  intros Hsnap. exists (ungroup (config_groups snap self)).
  split; [by apply produce_config_args_groups|].
  destruct (flags_config_groups_complete snap self)
    as (Hc & He & Hw & Hen & Hv).
  do 5 (split; [done|]). split.
  - intros f Hf. apply flags_config_groups in Hf. set_solver.
  - by rewrite flag_groups_ungroup.
Qed.

(** X7. The labels are never sent: [_produce_config_args] gives the
    same arguments whatever the labels are, and on a container in step
    with its snapshot a change of labels alone makes [_commit_config] run
    no command and take no snapshot. *)
Theorem labels_never_sent (self : Container) (l : gmap string string)
    (log : Log) :
  _produce_config_args (set_labels l self) = _produce_config_args self ∧
  (_produce_config_args self = Ok [] →
   _commit_config (set_labels l self, log) = (Ok (), (set_labels l self, log))).
Proof using Type.
  assert (Heq : _produce_config_args (set_labels l self)
                = _produce_config_args self) by by destruct self.
  split; [exact Heq|]. intros Hargs.
  destruct (_snapshot self) as [snap|] eqn:Hs.
  - apply (commit_config_clean _ snap); [by destruct self|].
    by rewrite Heq.
  - apply commit_config_no_snapshot. by destruct self.
Qed.

(** What a call of [_commit_config] can do. *)
Lemma commit_config_cases (self : Container) (log : Log) :
  _commit_config (self, log) = (Ok (), (self, log)) ∧
    (_snapshot self = None ∨ _produce_config_args self = Ok [])
  ∨ ∃ snap args,
      _snapshot self = Some snap ∧
      _produce_config_args self = Ok args ∧ args ≠ [] ∧
      (returncode (buildah log (config_cmd args self)) = 0%Z ∧
       _commit_config (self, log)
       = (Ok (), (_snapshot_config self, log ++ [config_cmd args self]))
       ∨
       returncode (buildah log (config_cmd args self)) ≠ 0%Z ∧
       _commit_config (self, log)
       = (Raise (CalledProcessError
                   (returncode (buildah log (config_cmd args self)))
                   ("buildah" :: config_cmd args self)
                   (Some (stdout (buildah log (config_cmd args self))))),
          (self, log ++ [config_cmd args self]))).
Proof.
  destruct (_snapshot self) as [snap|] eqn:Hs.
  - pose proof (produce_config_args_groups self snap Hs) as Hargs.
    destruct (decide (ungroup (config_groups snap self) = [])) as [Hnil|Hne].
    + left. rewrite Hnil in Hargs. split; [|by right].
      by apply (commit_config_clean self snap).
    + right. exists snap, (ungroup (config_groups snap self)).
      split; [done|]. split; [done|]. split; [done|].
      rewrite (commit_config_dirty self snap log _ Hs Hargs Hne). cbn zeta.
      destruct (decide (returncode _ ≠ 0%Z)) as [Hrc|Hrc].
      * by right.
      * left. split; [|done]. by apply dec_stable in Hrc.
  - left. split; [|by left]. by apply commit_config_no_snapshot.
Qed.

(** X8. [_commit_config] changes no attribute but [_snapshot], whether
    it returns or raises, and runs at most one command, a [config]
    command that ends with the id of the container. *)
Theorem commit_config_frame (self self1 : Container) (log log1 : Log)
    (r : result ()) :
  _commit_config (self, log) = (r, (self1, log1)) →
  set_snapshot None self1 = set_snapshot None self ∧
  ∃ cmds,
    log1 = log ++ cmds ∧ length cmds ≤ 1 ∧
    ∀ c, c ∈ cmds → head c = Some "config" ∧ last c = Some (_id self).
Proof.
  intros Hrun.
  destruct (commit_config_cases self log)
    as [[Heq _]|(snap & args & Hs & Hargs & Hne & [[Hrc Heq]|[Hrc Heq]])];
    rewrite Heq in Hrun; injection Hrun as <- <- <-.
  - split; [done|]. exists []. rewrite app_nil_r.
    split; [done|]. split; [cbn; lia|]. by intros c ?%elem_of_nil.
  - split; [done|]. exists [config_cmd args self].
    split; [done|]. split; [cbn; lia|].
    intros c ->%list_elem_of_singleton. split; [done|].
    unfold config_cmd. rewrite app_comm_cons. by rewrite last_snoc.
  - split; [done|]. exists [config_cmd args self].
    split; [done|]. split; [cbn; lia|].
    intros c ->%list_elem_of_singleton. split; [done|].
    unfold config_cmd. rewrite app_comm_cons. by rewrite last_snoc.
Qed.

(** X9. After a call of [_commit_config] that returns on a container
    with a snapshot, the snapshot agrees with the container on the
    command, the entrypoint, the working directory, the environment and
    the volumes. *)
Theorem commit_config_converges (self self1 snap : Container)
    (log log1 : Log) :
  _snapshot self = Some snap →
  _commit_config (self, log) = (Ok (), (self1, log1)) →
  ∃ snap1,
    _snapshot self1 = Some snap1 ∧
    command self1 = command snap1 ∧
    entrypoint self1 = entrypoint snap1 ∧
    workdir self1 = workdir snap1 ∧
    environ self1 = environ snap1 ∧
    volumes self1 = volumes snap1.
Proof.
  intros Hs Hrun.
  destruct (commit_config_cases self log)
    as [[Heq Hclean]|(snap' & args & Hs' & Hargs & Hne & [[Hrc Heq]|[Hrc Heq]])];
    rewrite Heq in Hrun; [| |discriminate]; injection Hrun as <- <-.
  - destruct Hclean as [Hnone|Hnil]; [congruence|].
    exists snap. split; [done|].
    pose proof (produce_config_args_groups self snap Hs) as Hargs.
    rewrite Hnil in Hargs. injection Hargs as Hargs.
    destruct (flags_config_groups_complete snap self)
      as (Hc & He & Hw & Hen & Hv).
    rewrite <- Hargs in Hc, He, Hw, Hen, Hv.
    repeat split; apply dec_stable; intros Hd.
    + by apply Hc, elem_of_nil in Hd.
    + by apply He, elem_of_nil in Hd.
    + by apply Hw, elem_of_nil in Hd.
    + by apply Hen, elem_of_nil in Hd.
    + by apply Hv, elem_of_nil in Hd.
  - by exists self.
Qed.

(** ** Operations that reconcile first *)

Lemma after_commit_config {A} (k : () → io Container A)
    (st : Container * Log) :
  (_commit_config ≫= k) st =
    match _commit_config st with
    | (Ok u, st') => k u st'
    | (Raise e, st') => (Raise e, st')
    end.
Proof using Type. apply bind_unfold. Qed.

Lemma buildah_out_kw_eq {S} (kw : option stream) (cmd : list string)
    (s : S) (log : Log) :
  _buildah_out_kw kw cmd (s, log) =
    let out := match default PIPE kw with
               | PIPE => Some (stdout (buildah log cmd))
               | _ => None
               end in
    if decide (returncode (buildah log cmd) ≠ 0%Z)
    then (Raise (CalledProcessError (returncode (buildah log cmd))
                   ("buildah" :: cmd) out), (s, log ++ [cmd]))
    else (Ok out, (s, log ++ [cmd])).
Proof. reflexivity. Qed.

(** The command line of [run] and [popen]. *)
Lemma run_eq (cmd : list string) (user : option string)
    (volumes : option (list volume_spec))
    (mounts : option (list (list (string * string)))) (terminal : bool)
    (so : stream) (st : Container * Log) :
  run cmd user volumes mounts terminal so st =
    match _commit_config st with
    | (Ok _, st') =>
        _buildah_out_kw (Some so)
          ("run" :: _run_args user volumes mounts terminal
             ++ "--" :: _id st'.1 :: cmd) st'
    | (Raise e, st') => (Raise e, st')
    end.
Proof using Type.
  unfold run. rewrite after_commit_config.
  by destruct (_commit_config st) as [[[]|e] st'].
Qed.

Lemma popen_eq (cmd : list string) (user : option string)
    (volumes : option (list volume_spec))
    (mounts : option (list (list (string * string)))) (terminal : bool)
    (st : Container * Log) :
  popen cmd user volumes mounts terminal st =
    match _commit_config st with
    | (Ok _, st') =>
        create_subprocess_exec_buildah
          ("run" :: _run_args user volumes mounts terminal
             ++ "--" :: _id st'.1 :: cmd) st'
    | (Raise e, st') => (Raise e, st')
    end.
Proof using Type.
  unfold popen. rewrite after_commit_config.
  by destruct (_commit_config st) as [[[]|e] st'].
Qed.

Lemma inspect_eq (st : Container * Log) :
  inspect st =
    match _commit_config st with
    | (Ok _, st') =>
        match _buildah_out ["inspect"; "--type"; "container"; _id st'.1] st'
        with
        | (Ok out, st'') => (json_loads out, st'')
        | (Raise e, st'') => (Raise e, st'')
        end
    | (Raise e, st') => (Raise e, st')
    end.
Proof using Type.
  unfold inspect. rewrite after_commit_config.
  destruct (_commit_config st) as [[[]|e] st']; [|done].
  rewrite bind_unfold. unfold get_self at 1. cbn [fst snd].
  rewrite bind_unfold.
  by destruct (_buildah_out _ st') as [[out|e] st''].
Qed.

Lemma commit_eq (st : Container * Log) :
  commit st =
    match _commit_config st with
    | (Ok _, st') =>
        match _buildah_out ["commit"; _id st'.1] st' with
        | (Ok out, st'') => (Ok (Image_from_id_only (strip out)), st'')
        | (Raise e, st'') => (Raise e, st'')
        end
    | (Raise e, st') => (Raise e, st')
    end.
Proof using Type.
  unfold commit. rewrite after_commit_config.
  destruct (_commit_config st) as [[[]|e] st']; [|done].
  rewrite bind_unfold. unfold get_self at 1. cbn [fst snd].
  rewrite bind_unfold.
  by destruct (_buildah_out _ st') as [[out|e] st''].
Qed.

(** X10. With changes pending, when the [config] command fails,
    [inspect], [commit], [run] and [popen] raise its
    [CalledProcessError] and do not run their own command: the [config]
    command is the only one run, and the snapshot stays. *)
Theorem reconcile_failure_blocks (self snap : Container) (log : Log)
    (args cmd : list string) (user : option string)
    (volumes : option (list volume_spec))
    (mounts : option (list (list (string * string)))) (terminal : bool)
    (so : stream) :
  _snapshot self = Some snap →
  _produce_config_args self = Ok args →
  args ≠ [] →
  returncode (buildah log (config_cmd args self)) ≠ 0%Z →
  let failure {A} : result A * (Container * Log) :=
    (Raise (CalledProcessError
              (returncode (buildah log (config_cmd args self)))
              ("buildah" :: config_cmd args self)
              (Some (stdout (buildah log (config_cmd args self))))),
     (self, log ++ [config_cmd args self])) in
  inspect (self, log) = failure ∧
  commit (self, log) = failure ∧
  run cmd user volumes mounts terminal so (self, log) = failure ∧
  popen cmd user volumes mounts terminal (self, log) = failure.
Proof using Type.
  intros Hs Hargs Hne Hrc. cbn zeta.
  pose proof (commit_config_dirty self snap log args Hs Hargs Hne) as Hc.
  cbn zeta in Hc. rewrite decide_True in Hc by done.
  rewrite inspect_eq, commit_eq, run_eq, popen_eq, Hc. done.
Qed.

(** X11. With changes pending, when the [config] command succeeds,
    [inspect], [commit], [run] and [popen] have run the [config]
    command, then their own command and nothing else, and the snapshot
    is the state of the container. *)
Theorem reconcile_then_operate (self snap : Container) (log : Log)
    (args cmd : list string) (user : option string)
    (volumes : option (list volume_spec))
    (mounts : option (list (list (string * string)))) (terminal : bool)
    (so : stream) :
  _snapshot self = Some snap →
  _produce_config_args self = Ok args →
  args ≠ [] →
  returncode (buildah log (config_cmd args self)) = 0%Z →
  let run_cmd :=
    "run" :: _run_args user volumes mounts terminal
      ++ "--" :: _id self :: cmd in
  let after own := (_snapshot_config self, log ++ [config_cmd args self; own]) in
  (inspect (self, log)).2
    = after ["inspect"; "--type"; "container"; _id self] ∧
  (commit (self, log)).2 = after ["commit"; _id self] ∧
  (run cmd user volumes mounts terminal so (self, log)).2 = after run_cmd ∧
  (popen cmd user volumes mounts terminal (self, log)).2 = after run_cmd.
Proof using Type.
  intros Hs Hargs Hne Hrc. cbn zeta.
  pose proof (commit_config_dirty self snap log args Hs Hargs Hne) as Hc.
  cbn zeta in Hc.
  rewrite decide_False in Hc by (intros Hnz; by apply Hnz).
  rewrite inspect_eq, commit_eq, run_eq, popen_eq, Hc.
  rewrite !buildah_out_eq, buildah_out_kw_eq. cbn [fst snd _snapshot_config
    set_snapshot _id]. cbn zeta. cbn beta. rewrite <- !app_assoc. cbn [app].
  repeat split.
  - destruct (decide _); [done|]. by destruct (json_loads _).
  - by destruct (decide _).
  - by destruct (decide _).
  - unfold create_subprocess_exec_buildah. cbn [fst snd].
    by rewrite <- app_assoc.
Qed.

(** X12. With nothing to reconcile (no snapshot, or no argument to
    send), [inspect], [commit], [run] and [popen] run their own command
    only and leave the container as it is. *)
Theorem operate_without_reconcile (self : Container) (log : Log)
    (cmd : list string) (user : option string)
    (volumes : option (list volume_spec))
    (mounts : option (list (list (string * string)))) (terminal : bool)
    (so : stream) :
  _snapshot self = None ∨ _produce_config_args self = Ok [] →
  let run_cmd :=
    "run" :: _run_args user volumes mounts terminal
      ++ "--" :: _id self :: cmd in
  (inspect (self, log)).2
    = (self, log ++ [["inspect"; "--type"; "container"; _id self]]) ∧
  (commit (self, log)).2 = (self, log ++ [["commit"; _id self]]) ∧
  (run cmd user volumes mounts terminal so (self, log)).2
    = (self, log ++ [run_cmd]) ∧
  popen cmd user volumes mounts terminal (self, log)
    = (Ok (mkProcess ("buildah" :: run_cmd)), (self, log ++ [run_cmd])).
Proof using Type.
  intros Hclean. cbn zeta.
  assert (Hc : _commit_config (self, log) = (Ok (), (self, log))).
  { destruct Hclean as [Hnone|Hnil].
    - by apply commit_config_no_snapshot.
    - destruct (_snapshot self) as [snap|] eqn:Hs.
      + by apply (commit_config_clean self snap).
      + by apply commit_config_no_snapshot. }
  rewrite inspect_eq, commit_eq, run_eq, popen_eq, Hc.
  rewrite !buildah_out_eq, buildah_out_kw_eq. cbn [fst snd]. cbn zeta.
  repeat split.
  - destruct (decide _); [done|]. by destruct (json_loads _).
  - by destruct (decide _).
  - by destruct (decide _).
Qed.

(** X13. [run] and [popen], called with the same arguments on the same
    state, run the same command lines and leave the same state. *)
Theorem run_popen_same_commands (cmd : list string) (user : option string)
    (volumes : option (list volume_spec))
    (mounts : option (list (list (string * string)))) (terminal : bool)
    (so : stream) (st : Container * Log) :
  (run cmd user volumes mounts terminal so st).2
  = (popen cmd user volumes mounts terminal st).2.
Proof using Type.
  rewrite run_eq, popen_eq.
  destruct (_commit_config st) as [[[]|e] [self' log']]; [|done].
  rewrite buildah_out_kw_eq. cbn zeta. unfold create_subprocess_exec_buildah.
  by destruct (decide _).
Qed.

(** X14. [run] returns the output of the command only when it is called
    with [stdout=PIPE]; called without [stdout] (or with [DEVNULL]) it
    returns [None] whatever the command wrote. *)
Theorem run_returns_output_only_piped (cmd : list string)
    (user : option string) (volumes : option (list volume_spec))
    (mounts : option (list (list (string * string)))) (terminal : bool)
    (so : stream) (st : Container * Log) (r : option string) :
  (run cmd user volumes mounts terminal so st).1 = Ok r →
  match so with
  | PIPE => is_Some r
  | _ => r = None
  end.
Proof using Type.
  rewrite run_eq.
  destruct (_commit_config st) as [[[]|e] [self' log']]; [|done].
  rewrite buildah_out_kw_eq. cbn zeta.
  destruct (decide _); [done|]. cbn [fst].
  intros [= <-]. by destruct so.
Qed.

(** ** Scopes *)

(** The scope of the container itself does run its [rm] when the body
    raises. *)
Lemma container_scope_raise {A} (self self' : Container) (log log' : Log)
    (body : io Container A) (e : exn) :
  body (self, log) = (Raise e, (self', log')) →
  (async_with_container body (self, log)).2.2 = log' ++ [["rm"; _id self']].
Proof.
  intros Hbody. unfold async_with_container. rewrite Hbody.
  rewrite bind_unfold. unfold get_self at 1. cbn [fst snd].
  rewrite !bind_unfold, buildah_out_kw_eq. cbn zeta.
  by destruct (decide _).
Qed.

(** X15. The scope of a container runs [rm] on its id once, right after
    the body, whether the body returns or raises; the outcome of the
    body is the outcome of the scope when [rm] succeeds, and the
    [CalledProcessError] of [rm] takes its place otherwise, without
    output, for [rm] is run with its output discarded. *)
Theorem container_scope_always_removes {A} (body : io Container A)
    (self self' : Container) (log log' : Log) (r : result A) :
  body (self, log) = (r, (self', log')) →
  let rm := buildah log' ["rm"; _id self'] in
  async_with_container body (self, log) =
    (if decide (returncode rm ≠ 0%Z)
     then Raise (CalledProcessError (returncode rm)
                   ["buildah"; "rm"; _id self'] None)
     else r,
     (self', log' ++ [["rm"; _id self']])).
Proof.
  intros Hbody. cbn zeta. unfold async_with_container. rewrite Hbody.
  destruct r as [a|e]; rewrite bind_unfold; unfold get_self at 1;
    cbn [fst snd]; rewrite !bind_unfold, buildah_out_kw_eq; cbn zeta;
    by destruct (decide _).
Qed.

(** X16. When the [mount] command fails, the mount scope raises its
    [CalledProcessError]; the body is not run and no [umount] is. *)
Theorem mount_failure_skips_body {A} (self s : Container) (log : Log)
    (body : pathlib_Path → io Container A) :
  returncode (buildah log ["mount"; _id self]) ≠ 0%Z →
  async_with (mount self) body (s, log) =
    (Raise (CalledProcessError (returncode (buildah log ["mount"; _id self]))
              ["buildah"; "mount"; _id self]
              (Some (stdout (buildah log ["mount"; _id self])))),
     (s, log ++ [["mount"; _id self]])).
Proof.
  intros Hrc. rewrite async_with_eq. cbn [mount before_yield].
  rewrite bind_unfold, buildah_out_eq. by rewrite decide_True.
Qed.


(** ** Creating a container *)

Lemma foldl_append {A} (f : A → list string) (l : list A)
    (args : list string) :
  foldl (λ args x, args ++ f x) args l = args ++ flat_map f l.
Proof.
  revert args. induction l as [|x l IH]; intros args; cbn.
  - by rewrite app_nil_r.
  - rewrite IH. by rewrite <- app_assoc.
Qed.

(** The command line of [__ainit__]. *)
Lemma ainit_eq (image : string) (mounts : option (list (list string)))
    (st : Container * Log) :
  Container_ainit image mounts st =
    match _buildah_out
            ("from" :: flat_map (λ m, ["--volume"; str_join ":" m])
                         (default [] mounts) ++ [image]) st
    with
    | (Ok out, st') => _init_config (set_id (strip out) st'.1, st'.2)
    | (Raise e, st') => (Raise e, st')
    end.
Proof using Type.
  unfold Container_ainit. rewrite bind_unfold.
  replace (match mounts with
           | Some (m :: ms) =>
               foldl (λ args mntinfo,
                        args ++ ["--volume"; str_join ":" mntinfo])
                 [] (m :: ms)
           | _ => []
           end)
    with (flat_map (λ m, ["--volume"; str_join ":" m]) (default [] mounts)).
  2:{ destruct mounts as [[|m ms]|]; [done| |done].
      by rewrite (foldl_append (λ m, ["--volume"; str_join ":" m])). }
  destruct (_buildah_out _ st) as [[out|e] st']; [|done].
  by rewrite bind_unfold.
Qed.

(** X18. Creating a container runs [from] with one [--volume] argument
    per mount, its members joined by [:], and the image last.  When
    that command fails its [CalledProcessError] is raised and nothing
    else is run; when it succeeds the id of the container is its output
    without the surrounding whitespace, and the initialisation goes on
    from there. *)
Theorem ainit_from_command (image : string)
    (mounts : option (list (list string))) (log : Log) :
  let cmd := "from" :: flat_map (λ m, ["--volume"; str_join ":" m])
                         (default [] mounts) ++ [image] in
  let proc := buildah log cmd in
  Container_ainit image mounts (blank_container, log) =
    if decide (returncode proc ≠ 0%Z)
    then (Raise (CalledProcessError (returncode proc) ("buildah" :: cmd)
                   (Some (stdout proc))),
          (blank_container, log ++ [cmd]))
    else _init_config (new_container (strip (stdout proc)), log ++ [cmd]).
Proof using Type.
  cbn zeta. rewrite ainit_eq, buildah_out_eq. by destruct (decide _).
Qed.

(** ** The run arguments *)

(** X19. [_run_args] gives, in this order, [--user] and the user when
    one is given, one [--volume] pair per volume in the order given (a
    string as it is, a tuple joined by [:]), one [--mount] pair per
    mount in the order given (its items as [key=value] joined by [,]),
    and [--terminal] when asked; absent and empty [volumes] or [mounts]
    give the same. *)
Theorem run_args_order (user : option string)
    (volumes : option (list volume_spec))
    (mounts : option (list (list (string * string)))) (terminal : bool) :
  _run_args user volumes mounts terminal =
    match user with Some u => ["--user"; u] | None => [] end
    ++ flat_map (λ vol, ["--volume"; volume_arg vol]) (default [] volumes)
    ++ flat_map (λ mnt, ["--mount"; mount_arg mnt]) (default [] mounts)
    ++ (if terminal then ["--terminal"] else []).
Proof.
  unfold _run_args.
  assert (Hv : ∀ args,
    match volumes with
    | Some vols =>
        foldl (λ args vol,
                 match vol with
                 | VolStr s => args ++ ["--volume"; s]
                 | VolTuple parts => args ++ ["--volume"; str_join ":" parts]
                 end) args vols
    | None => args
    end = args ++ flat_map (λ vol, ["--volume"; volume_arg vol])
                    (default [] volumes)).
  { intros args. destruct volumes as [vols|]; cbn [default];
      [|by rewrite app_nil_r].
    revert args. induction vols as [|[s|parts] vols IH]; intros args;
      cbn [foldl flat_map]; [by rewrite app_nil_r|..];
      by rewrite IH, <- app_assoc. }
  assert (Hm : ∀ args,
    match mounts with
    | Some mnts =>
        foldl (λ args mnt,
                 args ++ ["--mount";
                          str_join "," ((λ kv, kv.1 +:+ "=" +:+ kv.2) <$> mnt)])
          args mnts
    | None => args
    end = args ++ flat_map (λ mnt, ["--mount"; mount_arg mnt])
                    (default [] mounts)).
  { intros args. destruct mounts as [mnts|]; cbn [default];
      [|by rewrite app_nil_r].
    by rewrite (foldl_append (λ mnt, ["--mount"; mount_arg mnt])). }
  rewrite Hv, Hm.
  destruct user, terminal; cbn [app]; rewrite <- ?app_assoc, ?app_nil_r; done.
Qed.

(** ** An entry without [=] *)

Lemma dict_of_split_bad (items1 items2 : list string) (s : string)
    (d : gmap string string) :
  str_in "=" s = false →
  ∃ msg,
    for_each (JStr <$> (items1 ++ s :: items2))
      (λ item d,
         pair ← split_eq item;
         match pair with
         | [k; v] => Ok (<[k:=v]> d)
         | _ => Raise (ValueError "dictionary update sequence element has the wrong length; 2 is required")
         end) d
    = Raise (ValueError msg).
Proof.
  intros Hs. revert d. induction items1 as [|i items1 IH]; intros d.
  - cbn [app fmap list_fmap for_each split_eq mbind result_bind].
    rewrite str_split1_none by done. by eexists.
  - cbn [app fmap list_fmap for_each split_eq mbind result_bind].
    destruct (str_in "=" i) eqn:Hi.
    + destruct (str_split1_two "=" i Hi) as (k & v & -> & _).
      cbn [mbind result_bind]. apply IH.
    + rewrite str_split1_none by done. by eexists.
Qed.

(** X20. When the environment of the configuration holds an entry with
    no [=], [_init_config] raises [ValueError]; it has run [inspect]
    only, set no attribute and taken no snapshot. *)
Theorem init_config_env_without_equals (id cfg_text s : string) (log : Log)
    (info kinda : json) (config : list (string * json))
    (items1 items2 : list string) :
  returncode (buildah log ["inspect"; "--type"; "container"; id]) = 0%Z →
  json_loads (stdout (buildah log ["inspect"; "--type"; "container"; id]))
    = Ok info →
  subscript info "Config" = Ok (JStr cfg_text) →
  cfg_text ≠ "" →
  json_loads cfg_text = Ok kinda →
  subscript kinda "config" = Ok (JObj config) →
  obj_get "Env" config = Some (JList (JStr <$> (items1 ++ s :: items2))) →
  str_in "=" s = false →
  ∃ msg,
    _init_config (new_container id, log)
    = (Raise (ValueError msg),
       (new_container id, log ++ [["inspect"; "--type"; "container"; id]])).
Proof using Type.
  intros Hrc Hinfo Hcfg Hne Hkinda Hconfig Henv Hs.
  destruct (dict_of_split_bad items1 items2 s ∅ Hs) as [msg Hbad].
  exists msg.
  assert (Henvr : config_environ (JObj config) = Raise (ValueError msg)).
  { unfold config_environ, dict_get. rewrite Henv.
    cbn [default mbind result_bind].
    rewrite py_or_truthy by (by destruct items1).
    cbn [iterate mbind result_bind]. exact Hbad. }
  unfold _init_config.
  rewrite (bind_unfold inspect). rewrite inspect_new by done.
  rewrite Hinfo.
  rewrite bind_unfold. unfold lift at 1. rewrite Hcfg.
  rewrite bind_unfold.
  cbn [truthy]. rewrite bool_decide_true by done.
  rewrite bind_unfold. unfold lift at 1.
  cbn [json_loads_value]. rewrite Hkinda.
  unfold lift at 1. rewrite Hconfig.
  rewrite bind_unfold. unfold lift at 1. by rewrite Henvr.
Qed.

(** X21. When the [inspect] output has an empty or null [Config],
    [_init_config] returns with every attribute empty and takes the
    snapshot of that state; [inspect] is the only command run. *)
Theorem init_config_without_config (id : string) (log : Log)
    (info c : json) :
  returncode (buildah log ["inspect"; "--type"; "container"; id]) = 0%Z →
  json_loads (stdout (buildah log ["inspect"; "--type"; "container"; id]))
    = Ok info →
  subscript info "Config" = Ok c →
  truthy c = false →
  ∃ self,
    _init_config (new_container id, log)
      = (Ok (), (self, log ++ [["inspect"; "--type"; "container"; id]])) ∧
    _id self = id ∧ environ self = ∅ ∧ command self = [] ∧
    entrypoint self = [] ∧ labels self = ∅ ∧ volumes self = ∅ ∧
    workdir self = "" ∧
    _snapshot self = Some (new_container id).
Proof using Type.
  intros Hrc Hinfo Hc Hfalse. eexists. split.
  - by apply (init_config_no_config id log info c).
  - done.
Qed.

(** ** Pulling an image *)

(** X22. [Image.pull] runs the one command [pull name]; when it exits
    with zero the image returned has for id the output without its
    surrounding whitespace, and otherwise the [AttributeError] of the
    [except] clause is raised. *)
Theorem pull_outcome (name : string) (log : Log) :
  let proc := buildah log ["pull"; name] in
  pull name ((), log) =
    (if decide (returncode proc ≠ 0%Z)
     then Raise (AttributeError
            "module 'asyncio.subprocess' has no attribute 'CalledProcessError'")
     else Ok (mkImage (strip (stdout proc))),
     ((), log ++ [["pull"; name]])).
Proof.
  cbn zeta. unfold pull. rewrite bind_unfold. unfold try_except.
  rewrite buildah_out_eq, except_clause_raises.
  by destruct (decide _).
Qed.
End Buildah.

(** * Instances *)

Lemma elements_perm (X : gset string) : elements X ≡ₚ elements X.
Proof. reflexivity. Qed.

(** The theorem at the order stdpp enumerates sets in, on the snapshot
    [{a: 1, b: 2, c: 3}] and the live dict [{b: 2, c: 4, d: 5}]. *)
Lemma dict_diff_correct_witness :
  (∃ changed deleted,
     _dict_diff elements env_abc env_bcd = Ok (changed, deleted) ∧
     (∀ k, k ∈ changed ↔
           k ∈ dom env_bcd ∧ (k ∉ dom env_abc ∨ env_abc !! k ≠ env_bcd !! k)) ∧
     (∀ k, k ∈ deleted ↔ k ∈ dom env_abc ∧ k ∉ dom env_bcd) ∧
     changed ## deleted ∧
     changed ∪ deleted ∪ unchanged_keys env_abc env_bcd
     = dom env_abc ∪ dom env_bcd) ∧
  _dict_diff elements env_abc env_abc = Ok (∅, ∅).
Proof.
  apply (dict_diff_correct elements elements_perm).
Defined.

Example dict_diff_abc_bcd :
  _dict_diff elements env_abc env_bcd = Ok ({["c"; "d"]}, {["a"]}).
Proof. vm_compute. reflexivity. Qed.

Example produce_args_env_added :
  _produce_config_args elements (set_environ {["A" := "1"]} empty_container)
  = Ok ["--env"; "A=1"].
Proof. vm_compute. reflexivity. Qed.

Example produce_args_volume_dropped :
  _produce_config_args elements (set_volumes ∅ with_volume)
  = Ok ["--volume"; "/data-"].
Proof. vm_compute. reflexivity. Qed.

Example produce_args_dirty :
  _produce_config_args elements dirty_container
  = Ok ["--workingdir"; "/app"; "--volume"; "/data-"].
Proof. vm_compute. reflexivity. Qed.

(** C4 on [dirty_container], whose snapshot is [base_container]. *)
Lemma produce_config_args_order_witness :
  ∃ env_add env_del vol_add vol_del : list string,
    env_add ≡ₚ elements (added_or_changed (environ base_container)
                           (environ dirty_container)) ∧
    env_del ≡ₚ elements (dom (environ base_container)
                           ∖ dom (environ dirty_container)) ∧
    vol_add ≡ₚ elements (volumes dirty_container ∖ volumes base_container) ∧
    vol_del ≡ₚ elements (volumes base_container ∖ volumes dirty_container) ∧
    _produce_config_args elements dirty_container = Ok (ungroup (
      whole_field_group "--cmd" quoted_tokens
        (command base_container) (command dirty_container)
      ++ whole_field_group "--entrypoint" json_dumps
           (entrypoint base_container) (entrypoint dirty_container)
      ++ whole_field_group "--workingdir" id
           (workdir base_container) (workdir dirty_container)
      ++ key_groups "--env"
           (λ k, k +:+ "=" +:+ (environ dirty_container !!! k)) env_add
      ++ key_groups "--env" (λ k, k +:+ "-") env_del
      ++ key_groups "--volume" id vol_add
      ++ key_groups "--volume" (λ v, v +:+ "-") vol_del)).
Proof.
  apply (produce_config_args_order elements elements_perm
           dirty_container base_container).
  reflexivity.
Defined.

(** C5 on [dirty_container], whose command, entrypoint and environment
    are those of its snapshot [base_container]. *)
Lemma produce_config_args_minimal_witness :
  ∃ args,
    _produce_config_args elements dirty_container = Ok args ∧
    (command dirty_container = command base_container →
     "--cmd" ∉ flags args) ∧
    (entrypoint dirty_container = entrypoint base_container →
     "--entrypoint" ∉ flags args) ∧
    (workdir dirty_container = workdir base_container →
     "--workingdir" ∉ flags args) ∧
    (environ dirty_container = environ base_container →
     "--env" ∉ flags args) ∧
    (volumes dirty_container = volumes base_container →
     "--volume" ∉ flags args) ∧
    (command dirty_container = command base_container →
     entrypoint dirty_container = entrypoint base_container →
     workdir dirty_container = workdir base_container →
     environ dirty_container = environ base_container →
     labels dirty_container = labels base_container →
     volumes dirty_container = volumes base_container →
     args = []).
Proof.
  apply (produce_config_args_minimal elements elements_perm
           dirty_container base_container).
  reflexivity.
Defined.

(** C2 as the specification states it fails when the update command
    fails: both calls run the command. *)
Lemma commit_config_twice_counterexample :
  let first := _commit_config elements buildah_config_fails
                 (dirty_container, []) in
  let second := _commit_config elements buildah_config_fails first.2 in
  _produce_config_args elements first.2.1
    = Ok ["--workingdir"; "/app"; "--volume"; "/data-"] ∧
  first.2.2 = [["config"; "--workingdir"; "/app"; "--volume"; "/data-"; "c1"]] ∧
  second.2.2 = [["config"; "--workingdir"; "/app"; "--volume"; "/data-"; "c1"];
                ["config"; "--workingdir"; "/app"; "--volume"; "/data-"; "c1"]] ∧
  second.2.2 ≠ first.2.2.
Proof. vm_compute. repeat split; try reflexivity. discriminate. Qed.

(** C2 on [dirty_container] with a buildah that succeeds. *)
Lemma commit_config_idempotent_witness :
  let st1 := (_commit_config elements buildah_ok (dirty_container, [])).2 in
  (∃ cmds, st1.2 = [] ++ cmds ∧ length cmds ≤ 1) ∧
  (_snapshot st1.1 = None ∨ _produce_config_args elements st1.1 = Ok []) ∧
  _commit_config elements buildah_ok (st1.1, st1.2) = (Ok (), (st1.1, st1.2)).
Proof.
  apply (commit_config_idempotent elements elements_perm buildah_ok
           dirty_container _ [] _).
  vm_compute. reflexivity.
Defined.

(** C3 on [dirty_container] with a buildah whose [config] fails. *)
Lemma commit_config_failure_witness :
  let args := ["--workingdir"; "/app"; "--volume"; "/data-"] in
  let cmd := config_cmd args dirty_container in
  ∃ st1,
    _commit_config elements buildah_config_fails (dirty_container, []) =
      (Raise (CalledProcessError
                (returncode (buildah_config_fails [] cmd))
                ("buildah" :: cmd)
                (Some (stdout (buildah_config_fails [] cmd)))), st1) ∧
    st1 = (dirty_container, [] ++ [cmd]) ∧
    _snapshot st1.1 = Some base_container ∧
    _produce_config_args elements st1.1 = Ok args ∧
    (_commit_config elements buildah_config_fails st1).2.2
      = [] ++ [cmd; cmd].
Proof.
  apply (commit_config_failure elements buildah_config_fails
           dirty_container base_container []
           ["--workingdir"; "/app"; "--volume"; "/data-"]).
  - reflexivity.
  - vm_compute. reflexivity.
  - discriminate.
  - vm_compute. discriminate.
Defined.

(** C9 on the example payload. *)
Lemma init_config_roundtrip_witness :
  ∃ self,
    _init_config elements buildah_inspect loads_inspect (new_container "c1", [])
      = (Ok (), (self, [] ++ [["inspect"; "--type"; "container"; "c1"]])) ∧
    _id self = "c1" ∧
    environ self = dict_of_pairs (field_value [] (Env example_payload)) ∧
    command self = field_value [] (Cmd example_payload) ∧
    entrypoint self = field_value [] (Entrypoint example_payload) ∧
    labels self = dict_of_pairs (field_value [] (Labels example_payload)) ∧
    volumes self = list_to_set (field_value [] (Volumes example_payload)) ∧
    workdir self = field_value "" (WorkingDir example_payload) ∧
    _snapshot self = Some (set_snapshot None self).
Proof.
  apply (init_config_roundtrip elements buildah_inspect
           loads_inspect "c1" "<config>" []
           (JObj [("Container", JStr "c1"); ("Config", JStr "<config>")])
           (JObj [("created", JStr "2020"); ("config", JObj example_config)])
           example_config example_payload).
  - reflexivity.
  - reflexivity.
  - reflexivity.
  - discriminate.
  - reflexivity.
  - reflexivity.
  - repeat split; reflexivity.
  - intros kv Hkv. cbn [field_value example_payload Env] in Hkv.
    repeat (apply elem_of_cons in Hkv as [->|Hkv]; [reflexivity|]).
    by apply elem_of_nil in Hkv.
Defined.

Example init_config_example :
  (_init_config elements buildah_inspect loads_inspect
     (new_container "c1", [])).2.1
  = _snapshot_config
      (mkContainer "c1"
         {["PATH" := "/usr/bin:/bin"; "OPTS" := "-a=1 -b=2"; "EMPTY" := ""]}
         [] ["/entry"; "--serve"] ∅ {["/data"; "/cache"]} "/srv" None).
Proof. vm_compute. reflexivity. Qed.

(** C10 on the variable [OPTS] of the example configuration. *)
Lemma environ_split_first_equals_witness :
  split_eq (JStr ("OPTS" +:+ "=" +:+ "-a=1 -b=2")) = Ok ["OPTS"; "-a=1 -b=2"] ∧
  ∃ env, config_environ (JObj example_config) = Ok env ∧
         env !! "OPTS" = Some "-a=1 -b=2".
Proof.
  apply (environ_split_first_equals "OPTS" "-a=1 -b=2"
           [("PATH", "/usr/bin:/bin")] [("EMPTY", "")] example_config).
  - reflexivity.
  - intros kv Hkv. cbn [app] in Hkv.
    repeat (apply elem_of_cons in Hkv as [->|Hkv]; [reflexivity|]).
    by apply elem_of_nil in Hkv.
  - intros kv Hkv.
    repeat (apply elem_of_cons in Hkv as [->|Hkv]; [discriminate|]).
    by apply elem_of_nil in Hkv.
  - reflexivity.
Defined.

(** C6, where the code departs from it: with the container mounted, a
    body that raises and a body that is cancelled leave the scope with
    [mount] the only command run, while a body that returns is followed
    by [umount]. *)
Theorem mount_scope_skips_umount :
  async_with (mount buildah_ok base_container) body_fails (base_container, [])
    = (Raise (RuntimeError "boom"), (base_container, [["mount"; "c1"]])) ∧
  async_with (mount buildah_ok base_container) body_cancelled
      (base_container, [])
    = (Raise CancelledError, (base_container, [["mount"; "c1"]])) ∧
  async_with (mount buildah_ok base_container) (λ _, mret ())
      (base_container, [])
    = (Ok (), (base_container, [["mount"; "c1"]; ["umount"; "c1"]])).
Proof. repeat split; reflexivity. Qed.

(** C7, where the code departs from it: pulling a name buildah cannot
    find raises [AttributeError], not [ImageNotFoundError]. *)
Theorem pull_nonexistent_raises_attribute_error :
  pull buildah_pull_fails "nonexistent:tag" ((), [])
  = (Raise (AttributeError
       "module 'asyncio.subprocess' has no attribute 'CalledProcessError'"),
     ((), [["pull"; "nonexistent:tag"]])).
Proof. reflexivity. Qed.

(** C8, where the code departs from it: resolving the id of a local
    image raises [TypeError]; the id is not returned (and nothing is
    run, a pull no more than a listing). *)
Theorem resolve_local_id_raises_type_error :
  _resolve buildah_one_image loads_one_image "abc123" ((), [])
  = (Raise (TypeError "'async_generator' object is not iterable"), ((), [])).
Proof. reflexivity. Qed.

(** ** Instances of the further properties *)

Lemma dict_diff_membership_witness :
  ∃ changed deleted,
    _dict_diff elements env_abc env_bcd = Ok (changed, deleted) ∧
    (∀ k, k ∈ changed ↔ is_Some (env_bcd !! k) ∧ env_abc !! k ≠ env_bcd !! k) ∧
    (∀ k, k ∈ deleted ↔ is_Some (env_abc !! k) ∧ env_bcd !! k = None).
Proof. apply (dict_diff_membership elements elements_perm). Defined.

Lemma dict_diff_complete_witness :
  ∃ changed deleted,
    _dict_diff elements env_abc env_bcd = Ok (changed, deleted) ∧
    ∀ k, k ∉ changed → k ∉ deleted → env_abc !! k = env_bcd !! k.
Proof. apply (dict_diff_complete elements elements_perm). Defined.

Lemma join_shellwords_injective_witness :
  ["sh"; "-c"; "echo hi"] = ["sh"; "-c"; "echo hi"].
Proof.
  apply (join_shellwords_injective ["sh"; "-c"; "echo hi"]
           ["sh"; "-c"; "echo hi"]).
  - intros t Ht.
    repeat (apply elem_of_cons in Ht as [->|Ht]; [reflexivity|]).
    by apply elem_of_nil in Ht.
  - intros t Ht.
    repeat (apply elem_of_cons in Ht as [->|Ht]; [reflexivity|]).
    by apply elem_of_nil in Ht.
  - reflexivity.
Defined.

Lemma split_first_roundtrip_witness :
  ∃ k v, str_split1 "=" "OPTS=-a=1 -b=2" = [k; v] ∧
         str_in "=" k = false ∧
         str_join "=" [k; v] = "OPTS=-a=1 -b=2".
Proof. apply (split_first_roundtrip "OPTS=-a=1 -b=2"). reflexivity. Defined.

Lemma produce_config_args_complete_witness :
  ∃ args,
    _produce_config_args elements dirty_container = Ok args ∧
    (command dirty_container ≠ command base_container →
     "--cmd" ∈ flags args) ∧
    (entrypoint dirty_container ≠ entrypoint base_container →
     "--entrypoint" ∈ flags args) ∧
    (workdir dirty_container ≠ workdir base_container →
     "--workingdir" ∈ flags args) ∧
    (environ dirty_container ≠ environ base_container →
     "--env" ∈ flags args) ∧
    (volumes dirty_container ≠ volumes base_container →
     "--volume" ∈ flags args) ∧
    (∀ f, f ∈ flags args →
       f ∈ ["--cmd"; "--entrypoint"; "--workingdir"; "--env"; "--volume"]) ∧
    args = ungroup (flag_groups args).
Proof.
  apply (produce_config_args_complete elements elements_perm
           dirty_container base_container).
  reflexivity.
Defined.

Lemma commit_config_frame_witness :
  let st1 := (_commit_config elements buildah_ok (dirty_container, [])).2 in
  set_snapshot None st1.1 = set_snapshot None dirty_container ∧
  ∃ cmds,
    st1.2 = [] ++ cmds ∧ length cmds ≤ 1 ∧
    ∀ c, c ∈ cmds →
         head c = Some "config" ∧ last c = Some (_id dirty_container).
Proof.
  eapply (commit_config_frame elements elements_perm buildah_ok
            dirty_container _ [] _ (Ok ())).
  vm_compute. reflexivity.
Defined.

Lemma commit_config_converges_witness :
  let st1 := (_commit_config elements buildah_ok (dirty_container, [])).2 in
  ∃ snap1,
    _snapshot st1.1 = Some snap1 ∧
    command st1.1 = command snap1 ∧
    entrypoint st1.1 = entrypoint snap1 ∧
    workdir st1.1 = workdir snap1 ∧
    environ st1.1 = environ snap1 ∧
    volumes st1.1 = volumes snap1.
Proof.
  apply (commit_config_converges elements elements_perm buildah_ok
           dirty_container _ base_container []
           (_commit_config elements buildah_ok (dirty_container, [])).2.2).
  - reflexivity.
  - vm_compute. reflexivity.
Defined.

Lemma reconcile_failure_blocks_witness :
  let args := ["--workingdir"; "/app"; "--volume"; "/data-"] in
  let failure {A} : result A * (Container * Log) :=
    (Raise (CalledProcessError
              (returncode (buildah_config_fails []
                             (config_cmd args dirty_container)))
              ("buildah" :: config_cmd args dirty_container)
              (Some (stdout (buildah_config_fails []
                               (config_cmd args dirty_container))))),
     (dirty_container, [] ++ [config_cmd args dirty_container])) in
  inspect elements buildah_config_fails loads_inspect (dirty_container, [])
    = failure ∧
  commit elements buildah_config_fails (dirty_container, []) = failure ∧
  run elements buildah_config_fails ["ls"] None None None false Inherit
    (dirty_container, []) = failure ∧
  popen elements buildah_config_fails ["ls"] None None None false
    (dirty_container, []) = failure.
Proof.
  apply (reconcile_failure_blocks elements buildah_config_fails loads_inspect
           dirty_container base_container []
           ["--workingdir"; "/app"; "--volume"; "/data-"]).
  - reflexivity.
  - vm_compute. reflexivity.
  - discriminate.
  - vm_compute. discriminate.
Defined.

Lemma reconcile_then_operate_witness :
  let args := ["--workingdir"; "/app"; "--volume"; "/data-"] in
  let run_cmd :=
    "run" :: _run_args (Some "nobody") None None true
      ++ "--" :: _id dirty_container :: ["ls"; "-l"] in
  let after own :=
    (_snapshot_config dirty_container,
     [] ++ [config_cmd args dirty_container; own]) in
  (inspect elements buildah_ok loads_inspect (dirty_container, [])).2
    = after ["inspect"; "--type"; "container"; _id dirty_container] ∧
  (commit elements buildah_ok (dirty_container, [])).2
    = after ["commit"; _id dirty_container] ∧
  (run elements buildah_ok ["ls"; "-l"] (Some "nobody") None None true PIPE
     (dirty_container, [])).2 = after run_cmd ∧
  (popen elements buildah_ok ["ls"; "-l"] (Some "nobody") None None true
     (dirty_container, [])).2 = after run_cmd.
Proof.
  apply (reconcile_then_operate elements buildah_ok loads_inspect
           dirty_container base_container []
           ["--workingdir"; "/app"; "--volume"; "/data-"]).
  - reflexivity.
  - vm_compute. reflexivity.
  - discriminate.
  - reflexivity.
Defined.

Lemma operate_without_reconcile_witness :
  let run_cmd :=
    "run" :: _run_args None (Some [VolTuple ["/host"; "/mnt"; "ro"]]) None false
      ++ "--" :: _id synced_container :: ["ls"] in
  (inspect elements buildah_ok loads_inspect (synced_container, [])).2
    = (synced_container,
       [] ++ [["inspect"; "--type"; "container"; _id synced_container]]) ∧
  (commit elements buildah_ok (synced_container, [])).2
    = (synced_container, [] ++ [["commit"; _id synced_container]]) ∧
  (run elements buildah_ok ["ls"] None
     (Some [VolTuple ["/host"; "/mnt"; "ro"]]) None false Inherit
     (synced_container, [])).2
    = (synced_container, [] ++ [run_cmd]) ∧
  popen elements buildah_ok ["ls"] None
     (Some [VolTuple ["/host"; "/mnt"; "ro"]]) None false
     (synced_container, [])
    = (Ok (mkProcess ("buildah" :: run_cmd)),
       (synced_container, [] ++ [run_cmd])).
Proof.
  apply (operate_without_reconcile elements buildah_ok loads_inspect
           synced_container []).
  right. vm_compute. reflexivity.
Defined.

Lemma run_returns_output_only_piped_witness :
  (None : option string) = None.
Proof.
  apply (run_returns_output_only_piped elements buildah_ok ["ls"] None None
           None false Inherit (synced_container, []) None).
  vm_compute. reflexivity.
Defined.

Example run_default_returns_none :
  (run elements buildah_ok ["ls"] None None None false Inherit
     (synced_container, [])).1 = Ok None ∧
  (run elements buildah_ok ["ls"] None None None false PIPE
     (synced_container, [])).1 = Ok (Some "  /var/lib/containers/merged ").
Proof. split; vm_compute; reflexivity. Qed.

Lemma container_scope_always_removes_witness :
  let rm := buildah_ok [] ["rm"; _id base_container] in
  async_with_container buildah_ok (body_fails (Path "")) (base_container, []) =
    (if decide (returncode rm ≠ 0%Z)
     then Raise (CalledProcessError (returncode rm)
                   ["buildah"; "rm"; _id base_container] None)
     else Raise (RuntimeError "boom"),
     (base_container, [] ++ [["rm"; _id base_container]])).
Proof.
  apply (container_scope_always_removes buildah_ok (body_fails (Path ""))
           base_container base_container [] []).
  reflexivity.
Defined.

Lemma mount_failure_skips_body_witness :
  async_with (mount buildah_mount_fails base_container) body_copies
    (base_container, []) =
    (Raise (CalledProcessError
              (returncode (buildah_mount_fails []
                             ["mount"; _id base_container]))
              ["buildah"; "mount"; _id base_container]
              (Some (stdout (buildah_mount_fails []
                               ["mount"; _id base_container])))),
     (base_container, [] ++ [["mount"; _id base_container]])).
Proof.
  apply (mount_failure_skips_body buildah_mount_fails base_container
           base_container [] body_copies).
  vm_compute. discriminate.
Defined.


Lemma init_config_env_without_equals_witness :
  ∃ msg,
    _init_config elements buildah_inspect loads_bad_env (new_container "c1", [])
    = (Raise (ValueError msg),
       (new_container "c1",
        [] ++ [["inspect"; "--type"; "container"; "c1"]])).
Proof.
  apply (init_config_env_without_equals elements buildah_inspect loads_bad_env
           "c1" "<config>" "DEBUG" []
           (JObj [("Config", JStr "<config>")])
           (JObj [("config",
                   JObj [("Env", JList [JStr "PATH=/bin"; JStr "DEBUG";
                                        JStr "HOME=/root"])])])
           [("Env", JList [JStr "PATH=/bin"; JStr "DEBUG"; JStr "HOME=/root"])]
           ["PATH=/bin"] ["HOME=/root"]).
  - reflexivity.
  - reflexivity.
  - reflexivity.
  - discriminate.
  - reflexivity.
  - reflexivity.
  - reflexivity.
  - reflexivity.
Defined.

Lemma init_config_without_config_witness :
  ∃ self,
    _init_config elements buildah_inspect loads_no_config
        (new_container "c1", [])
      = (Ok (), (self, [] ++ [["inspect"; "--type"; "container"; "c1"]])) ∧
    _id self = "c1" ∧ environ self = ∅ ∧ command self = [] ∧
    entrypoint self = [] ∧ labels self = ∅ ∧ volumes self = ∅ ∧
    workdir self = "" ∧
    _snapshot self = Some (new_container "c1").
Proof.
  apply (init_config_without_config elements buildah_inspect loads_no_config
           "c1" []
           (JObj [("Container", JStr "c1"); ("Config", JStr "")]) (JStr "")).
  - reflexivity.
  - reflexivity.
  - reflexivity.
  - reflexivity.
Defined.

Example ainit_with_mounts :
  (Container_ainit elements buildah_config_fails loads_inspect "alpine"
     (Some [["/host"; "/mnt"; "ro"]; ["/src"; "/app"]])
     (blank_container, [])).2.2
  = [["from"; "--volume"; "/host:/mnt:ro"; "--volume"; "/src:/app"; "alpine"];
     ["inspect"; "--type"; "container"; ""]].
Proof. vm_compute. reflexivity. Qed.

Example run_args_example :
  _run_args (Some "1000") (Some [VolStr "/a:/b"; VolTuple ["/c"; "/d"; "ro"]])
    (Some [[("type", "bind"); ("src", "/x"); ("dst", "/y")]]) true
  = ["--user"; "1000"; "--volume"; "/a:/b"; "--volume"; "/c:/d:ro";
     "--mount"; "type=bind,src=/x,dst=/y"; "--terminal"].
Proof. reflexivity. Qed.

Example container_scope_rm_fails :
  async_with_container buildah_rm_fails (mret 3) (base_container, [])
  = (Raise (CalledProcessError 125 ["buildah"; "rm"; "c1"] None),
     (base_container, [["rm"; "c1"]])).
Proof. reflexivity. Qed.
